(** * s3-upload-action: a shallow embedding of [src/main.js]

    The action is one linear procedure, [run], over a configuration record.
    The code is embedded in three layers, followed by the statements of the
    specification ([Spec]), sample configurations ([Sample]) and the proofs
    ([JsFacts], [Properties], then [Behaviour] for what a run does and
    [Values] for what its computations give):

    - [Js]: the JavaScript and Node built-ins that [run] calls on strings
      ([trim], [split], [startsWith], [replace], [parseInt],
      [Buffer.from(_, 'hex').toString('base64')], [path.basename]);
    - [Action]: the pure computations of [run] (validation, normalisation of
      the path-like inputs, tag parsing, checksum fields, URLs);
    - [Run]: [run] itself as a program in a state-and-exception monad over a
      world made of the local file system, the log of calls to the storage
      service and the outputs of the step.

    A JavaScript string is modelled by [string]: a character is a UTF-16 code
    unit below 256.  A JavaScript number that comes out of [parseInt] is
    modelled by [option Z], [None] standing for [NaN]. *)

From Stdlib Require Import String Ascii List ZArith QArith Qround Lia Bool.
From Stdlib Require Import DecimalString DecimalNat.
From stdpp Require Import gmap strings.
Import ListNotations.

Local Open Scope list_scope.
Local Open Scope string_scope.

(* [simpl] unfolds the append of strings on a constructor, as it does for lists. *)
#[local] Arguments String.append !_ _ / : simpl nomatch.

(** ** JavaScript built-ins *)

Module Js.

(** [Boolean(s)] for a string: the empty string is the only falsy one. *)
Definition truthy (s : string) : bool :=
  match s with EmptyString => false | String _ _ => true end.

(** [a || b] on strings. *)
Definition or_else (a b : string) : string := if truthy a then a else b.

(** [s.slice(n)] for [0 <= n]. *)
Fixpoint slice_from (n : nat) (s : string) : string :=
  match n, s with
  | O, _ => s
  | S _, EmptyString => EmptyString
  | S k, String _ t => slice_from k t
  end.

(** [s.slice(0, n)] for [0 <= n]. *)
Fixpoint slice_to (n : nat) (s : string) : string :=
  match n, s with
  | O, _ => EmptyString
  | S _, EmptyString => EmptyString
  | S k, String c t => String c (slice_to k t)
  end.

(** [s.startsWith(p)]. *)
Fixpoint startsWith (p s : string) : bool :=
  match p, s with
  | EmptyString, _ => true
  | String _ _, EmptyString => false
  | String a p', String b s' => Ascii.eqb a b && startsWith p' s'
  end.

(** [s.endsWith(p)]: the last [p.length] characters of [s] are [p]. *)
Definition endsWith (p s : string) : bool :=
  (String.length p <=? String.length s)%nat
  && String.eqb (slice_from (String.length s - String.length p) s) p.

(** White space and line terminators, the characters [trim] and [parseInt]
    strip: TAB, LF, VT, FF, CR, SP and NBSP among the code units below 256. *)
Definition isWhiteSpace (c : ascii) : bool :=
  let n := nat_of_ascii c in
  ((9 <=? n) && (n <=? 13) || (n =? 32) || (n =? 160))%nat.

Fixpoint trimStart (s : string) : string :=
  match s with
  | EmptyString => EmptyString
  | String c t => if isWhiteSpace c then trimStart t else s
  end.

Fixpoint trimEnd (s : string) : string :=
  match s with
  | EmptyString => EmptyString
  | String c t =>
      match trimEnd t with
      | EmptyString => if isWhiteSpace c then EmptyString else String c EmptyString
      | t' => String c t'
      end
  end.

(** [s.trim()]. *)
Definition trim (s : string) : string := trimEnd (trimStart s).

(** [s.split(sep)] for a separator of one character.  The result is never
    empty: a string without the separator is returned whole. *)
Fixpoint split (sep : ascii) (s : string) : list string :=
  match s with
  | EmptyString => [EmptyString]
  | String c t =>
      if Ascii.eqb c sep then EmptyString :: split sep t
      else match split sep t with
           | h :: r => String c h :: r
           | [] => [String c EmptyString]
           end
  end.

(** [parts.join(sep)]. *)
Fixpoint join (sep : string) (parts : list string) : string :=
  match parts with
  | [] => EmptyString
  | [x] => x
  | x :: rest => x ++ sep ++ join sep rest
  end.

(** [s.indexOf(pat)]: the position of the first occurrence, [None] for -1. *)
Fixpoint indexOf (pat s : string) : option nat :=
  if startsWith pat s then Some O
  else match s with
       | EmptyString => None
       | String _ t => option_map S (indexOf pat t)
       end.

(** The replacement text of [String.prototype.replace] when the pattern is a
    string (so there are no captures): in the template, [$$] stands for a
    dollar, [$&] for the match, [$`] for the text before the match and [$']
    for the text after it; any other character, a dollar included, stands
    for itself. *)
Fixpoint GetSubstitution (matched before after tmpl : string) : string :=
  match tmpl with
  | EmptyString => EmptyString
  | String a tl =>
      if Ascii.eqb a "$" then
        match tl with
        | EmptyString => String a EmptyString
        | String c t =>
            if Ascii.eqb c "$" then String "$" (GetSubstitution matched before after t)
            else if Ascii.eqb c "&" then matched ++ GetSubstitution matched before after t
            else if Ascii.eqb c "`" then before ++ GetSubstitution matched before after t
            else if Ascii.eqb c "'" then after ++ GetSubstitution matched before after t
            else String a (GetSubstitution matched before after tl)
        end
      else String a (GetSubstitution matched before after tl)
  end.

(** [s.replace(pat, tmpl)] with a string pattern: the first occurrence only. *)
Definition replace (s pat tmpl : string) : string :=
  match indexOf pat s with
  | None => s
  | Some i =>
      let before := slice_to i s in
      let after := slice_from (i + String.length pat) s in
      before ++ GetSubstitution pat before after tmpl ++ after
  end.

(** [s[i]]: the one-character string at position [i], [None] for
    [undefined] when [i] is out of range. *)
Definition charAt (s : string) (i : Z) : option string :=
  if (i <? 0)%Z then None
  else option_map (fun c => String c EmptyString) (String.get (Z.to_nat i) s).

(** [r += v] where [v] may be [undefined]. *)
Definition append_value (r : string) (v : option string) : string :=
  r ++ match v with Some x => x | None => "undefined" end.

(** The value of a digit of [parseInt]: [0-9], then [a-z] or [A-Z] for 10 to
    35. *)
Definition digitValue (c : ascii) : option Z :=
  let n := Z.of_nat (nat_of_ascii c) in
  if ((48 <=? n) && (n <=? 57))%Z then Some (n - 48)%Z
  else if ((97 <=? n) && (n <=? 122))%Z then Some (n - 87)%Z
  else if ((65 <=? n) && (n <=? 90))%Z then Some (n - 55)%Z
  else None.

(** The value of the longest prefix of [s] made of digits of [radix];
    [acc] is the value read so far, [None] when no digit was read. *)
Fixpoint parseDigits (radix : Z) (s : string) (acc : option Z) : option Z :=
  match s with
  | EmptyString => acc
  | String c t =>
      match digitValue c with
      | Some d =>
          if (d <? radix)%Z
          then parseDigits radix t
                 (Some (radix * match acc with Some a => a | None => 0 end + d)%Z)
          else acc
      | None => acc
      end
  end.

(** [parseInt(s)] without a radix: leading white space is skipped, then an
    optional sign, then [0x] or [0X] selects radix 16, then the longest run
    of digits is read; [None] is [NaN].  The mathematical value is kept
    exact: the comparisons of [run] against 0, 100, 1000 and 604800 give the
    same answer on it as on the double [parseInt] returns, and [-0] is [0]. *)
Definition parseInt (s : string) : option Z :=
  let s1 := trimStart s in
  let '(sign, s2) :=
    match s1 with
    | String c t =>
        if Ascii.eqb c "-" then ((-1)%Z, t)
        else if Ascii.eqb c "+" then (1%Z, t)
        else (1%Z, s1)
    | EmptyString => (1%Z, s1)
    end in
  let '(radix, s3) :=
    match s2 with
    | String z (String x t) =>
        if Ascii.eqb z "0" && (Ascii.eqb x "x" || Ascii.eqb x "X")
        then (16%Z, t) else (10%Z, s2)
    | _ => (10%Z, s2)
    end in
  option_map (Z.mul sign) (parseDigits radix s3 None).

(** [isNaN(n)] and [!n] on the result of [parseInt]. *)
Definition isNaN (n : option Z) : bool :=
  match n with None => true | Some _ => false end.

Definition not_number (n : option Z) : bool :=
  match n with None => true | Some v => (v =? 0)%Z end.

(** [a < b] on numbers: false as soon as one side is [NaN]. *)
Definition lt (a b : option Z) : bool :=
  match a, b with Some x, Some y => (x <? y)%Z | _, _ => false end.

(** [a | b] on booleans, read as 0 or 1, and the truth of the resulting
    number in an [if]. *)
Definition bit_of (b : bool) : Z := if b then 1%Z else 0%Z.
Definition bitor (a b : Z) : Z := Z.lor a b.
Definition number_truthy (n : Z) : bool := negb (n =? 0)%Z.

(** A character of the class [[0-9a-fA-F]]. *)
Definition isHexDigit (c : ascii) : bool :=
  match digitValue c with Some d => (d <? 16)%Z | None => false end.

Fixpoint all_chars (p : ascii -> bool) (s : string) : bool :=
  match s with
  | EmptyString => true
  | String c t => p c && all_chars p t
  end.

(** [/^[0-9a-fA-F]+$/.test(s)]: one or more characters, all of the class. *)
Definition test_hex (s : string) : bool := truthy s && all_chars isHexDigit s.

(** [Buffer.from(s, 'hex')]: one byte per pair of hexadecimal digits, up to
    the first pair that is not one; a last digit without a partner is
    dropped. *)
Fixpoint Buffer_from_hex (s : string) : list Z :=
  match s with
  | String a (String b t) =>
      match digitValue a, digitValue b with
      | Some x, Some y =>
          if ((x <? 16) && (y <? 16))%Z
          then Z.lor (Z.shiftl x 4) y :: Buffer_from_hex t
          else []
      | _, _ => []
      end
  | _ => []
  end.

Definition base64_alphabet : string :=
  "ABCDEFGHIJKLMNOPQRSTUVWXYZabcdefghijklmnopqrstuvwxyz0123456789+/".

Definition base64_char (n : Z) : ascii :=
  match String.get (Z.to_nat n) base64_alphabet with
  | Some c => c
  | None => "="%char
  end.

(** [buf.toString('base64')]: three bytes give four characters, a last
    group of one or two bytes is padded with [=]. *)
Fixpoint Buffer_toString_base64 (buf : list Z) : string :=
  match buf with
  | [] => EmptyString
  | a :: rest1 =>
      let c0 := base64_char (Z.shiftr a 2) in
      match rest1 with
      | [] =>
          String c0 (String (base64_char (Z.shiftl (Z.land a 3) 4)) "==")
      | b :: rest2 =>
          let c1 := base64_char (Z.lor (Z.shiftl (Z.land a 3) 4) (Z.shiftr b 4)) in
          match rest2 with
          | [] =>
              String c0 (String c1
                (String (base64_char (Z.shiftl (Z.land b 15) 2)) "="))
          | c :: rest3 =>
              let c2 := base64_char (Z.lor (Z.shiftl (Z.land b 15) 2) (Z.shiftr c 6)) in
              let c3 := base64_char (Z.land c 63) in
              String c0 (String c1 (String c2 (String c3
                (Buffer_toString_base64 rest3))))
          end
      end
  end.

(** The loop of Node's [path.basename] (POSIX flavour) over the characters
    of the path read from the last to the first: trailing slashes are
    skipped, then characters are kept up to the next slash. *)
Fixpoint basename_scan (rev_chars : list ascii) (matchedSlash : bool)
    (kept : string) : string :=
  match rev_chars with
  | [] => kept
  | c :: before =>
      if Ascii.eqb c "/" then
        if matchedSlash then basename_scan before true kept else kept
      else basename_scan before false (String c kept)
  end.

(** [path.basename(p)]. *)
Definition basename (p : string) : string :=
  basename_scan (rev (list_ascii_of_string p)) true EmptyString.

End Js.

(** ** The configuration record *)

(** [input]: every field is a string, as [core.getInput] returns them. *)
Module Input.
Record t : Type := mk {
  awsAccessKeyId : string;
  awsSecretAccessKey : string;
  awsRegion : string;
  awsBucket : string;
  filePath : string;
  destinationDir : string;
  bucketRoot : string;
  outputFileUrl : string;
  contentType : string;
  contentDisposition : string;
  outputQrUrl : string;
  qrWidth : string;
  public : string;
  expire : string;
  alternativeDomainPublic : string;
  alternativeDomainPrivate : string;
  tags : string;
  checksumAlgorithm : string;
  checksum : string
}.
End Input.

(** One parsed tag, [{ Key, Value }]. *)
Module Tag.
Record t : Type := mk { Key : string; Value : string }.
End Tag.

(** ** The pure computations of [run] *)

Module Action.
Import Js.

Definition dquote : string := String (ascii_of_nat 34) EmptyString.

Definition expire_message : string :=
  dquote ++ "expire" ++ dquote ++ " input should be a number between 0 and 604800.".

Definition qrWidth_message : string :=
  dquote ++ "qr-width" ++ dquote ++ " input should be a number between 100 and 1000.".

Definition checksum_message (algorithm : string) : string :=
  "Unsupported checksum algorithm: " ++ algorithm.

(** [const expire = parseInt(input.expire)] and the test of the [if] that
    follows, [isNaN(expire) | expire < 0 | 604800 < expire]. *)
Definition expire (input : Input.t) : option Z := parseInt (Input.expire input).

Definition expire_rejected (expire : option Z) : bool :=
  number_truthy
    (bitor (bitor (bit_of (isNaN expire)) (bit_of (lt expire (Some 0%Z))))
           (bit_of (lt (Some 604800%Z) expire))).

(** [const qrWidth = parseInt(input.qrWidth)] and
    [!qrWidth | qrWidth < 100 | 1000 < qrWidth]. *)
Definition qrWidth (input : Input.t) : option Z := parseInt (Input.qrWidth input).

Definition qrWidth_rejected (qrWidth : option Z) : bool :=
  number_truthy
    (bitor (bitor (bit_of (not_number qrWidth)) (bit_of (lt qrWidth (Some 100%Z))))
           (bit_of (lt (Some 1000%Z) qrWidth))).

(** The two steps [run] applies to a non-empty [bucket-root] and to a
    non-empty [destination-dir]: drop one leading slash, then add a trailing
    slash to what is left unless it is empty or already ends with one. *)
Definition normalize (dir : string) : string :=
  let dir1 := if startsWith "/" dir then slice_from 1 dir else dir in
  if truthy dir1 && negb (endsWith "/" dir1) then dir1 ++ "/" else dir1.

Definition bucketRoot (input : Input.t) : string :=
  if truthy (Input.bucketRoot input) then normalize (Input.bucketRoot input)
  else "artifacts/".

(** [destinationDir], given the string [getRandomStr(32)] returns when it is
    called. *)
Definition destinationDir (input : Input.t) (randomStr : string) : string :=
  if truthy (Input.destinationDir input) then normalize (Input.destinationDir input)
  else randomStr ++ "/".

Definition fileKey (input : Input.t) (destinationDir : string) : string :=
  bucketRoot input ++ destinationDir ++ basename (Input.filePath input).

Definition qrKey (input : Input.t) (destinationDir : string) : string :=
  bucketRoot input ++ destinationDir ++ "qr.png".

Definition acl (input : Input.t) : string :=
  if String.eqb (Input.public input) "true" then "public-read" else "private".

(** [const [Key, Value] = pair.split('='); return { Key: Key.trim(), Value:
    (Value || '').trim() }]: the first two pieces of the split; a missing or
    empty second piece gives the empty value.  [split] never returns the
    empty list, so the first case is not reached. *)
Definition parsePair (pair : string) : Tag.t :=
  match split "=" pair with
  | [] => Tag.mk EmptyString EmptyString
  | Key :: rest =>
      let Value := match rest with [] => None | v :: _ => Some v end in
      Tag.mk (trim Key)
             (trim (match Value with
                    | Some v => or_else v EmptyString
                    | None => EmptyString
                    end))
  end.

(** [input.tags.split(',').map(pair => pair.trim()).filter(Boolean).map(...)]. *)
Definition parseTags (tags : string) : list Tag.t :=
  map parsePair (filter truthy (map trim (split "," tags))).

(** [tagging]: [None] when [input.tags] is empty and the variable stays
    [undefined]. *)
Definition tagging (input : Input.t) : option (list Tag.t) :=
  if truthy (Input.tags input) then Some (parseTags (Input.tags input)) else None.

(** [tagging.map(t => `${t.Key}=${t.Value}`).join('&')]. *)
Definition serializeTags (tagging : list Tag.t) : string :=
  join "&" (map (fun t => Tag.Key t ++ "=" ++ Tag.Value t) tagging).

Definition supportedAlgorithms : list string :=
  ["CRC32"; "CRC32C"; "CRC64NVME"; "SHA1"; "SHA256"].

(** [list.includes(x)]. *)
Definition includes (l : list string) (x : string) : bool :=
  existsb (String.eqb x) l.

(** [checksumValue] after the conversion of lines 153 to 157. *)
Definition checksumValue (checksum : string) : string :=
  if test_hex checksum then Buffer_toString_base64 (Buffer_from_hex checksum)
  else checksum.

(** The [switch] on the algorithm: the field of [params] the value goes to,
    [None] when no [case] matches. *)
Definition checksumField (algorithm : string) : option string :=
  if String.eqb algorithm "CRC32" then Some "ChecksumCRC32"
  else if String.eqb algorithm "CRC32C" then Some "ChecksumCRC32C"
  else if String.eqb algorithm "CRC64NVME" then Some "ChecksumCRC64NVME"
  else if String.eqb algorithm "SHA1" then Some "ChecksumSHA1"
  else if String.eqb algorithm "SHA256" then Some "ChecksumSHA256"
  else None.

(** The host and root the URLs start with, and the rewrite to an
    alternative domain. *)
Definition s3Prefix (input : Input.t) : string :=
  Input.awsBucket input ++ ".s3." ++ Input.awsRegion input ++ ".amazonaws.com/".

Definition publicUrl (input : Input.t) (key : string) : string :=
  "https://" ++ s3Prefix input ++ key.

Definition rewriteUrl (input : Input.t) (url alternativeDomain : string) : string :=
  if truthy alternativeDomain
  then replace url (s3Prefix input ++ bucketRoot input) (alternativeDomain ++ "/")
  else url.

(** The alphabet of [getRandomStr]. *)
Definition c : string :=
  "abcdefghijklmnopqrstuvwxyzABCDEFGHJKLMNOPQRSTUVWXYZ0123456789".

(** [c[Math.floor(u * c.length)]] for a result [u] of [Math.random()].  The
    product is taken exactly. *)
Definition pick (u : Q) : option string :=
  charAt c (Qfloor (u * inject_Z (Z.of_nat (String.length c)))).

End Action.

(** ** [run] and its effects *)

Module Run.
Import Js Action.

(** Where an exception comes from: a [throw] of [run] itself, the local file
    system, the storage client, or the QR encoder.  Each is a JavaScript
    [Error] with a message. *)
Inductive Origin : Type := Thrown | FileSystem | Storage | QrCode.

Record exn : Type := Error { origin : Origin; message : string }.

(** A JavaScript object with string values, such as [params]. *)
Abbreviation object := (gmap string string).

(** One call to the storage client. *)
Inductive Call : Type :=
| PutObject (params : object)
| GetSignedUrl (command : object) (expiresIn : option Z).

(** What the collaborators answer: the successive results of
    [Math.random()], whether the service accepts an upload (an error message
    when it does not), the signed URL it returns, and the image the QR
    encoder produces for a text and a width. *)
Record Env : Type := {
  Math_random : nat -> Q;
  s3_putObject : list Call -> object -> option string;
  s3_getSignedUrl : list Call -> object -> option Z -> string + string;
  qr_toFile : option string -> option Z -> string + string
}.

(** The world [run] acts on: the files of the runner (path to content), the
    calls made to the storage client so far, the outputs set with
    [core.setOutput], the message given to [core.setFailed], and the number
    of calls to [Math.random()] so far. *)
Record World : Type := {
  files : gmap string string;
  calls : list Call;
  outputs : list (string * string);
  failed : option string;
  randoms : nat
}.

Definition set_files (f : gmap string string) (w : World) : World :=
  {| files := f; calls := calls w; outputs := outputs w;
     failed := failed w; randoms := randoms w |}.

Definition add_call (c : Call) (w : World) : World :=
  {| files := files w; calls := (calls w ++ [c])%list; outputs := outputs w;
     failed := failed w; randoms := randoms w |}.

Definition add_output (name value : string) (w : World) : World :=
  {| files := files w; calls := calls w;
     outputs := (outputs w ++ [(name, value)])%list;
     failed := failed w; randoms := randoms w |}.

Definition set_failed (msg : string) (w : World) : World :=
  {| files := files w; calls := calls w; outputs := outputs w;
     failed := Some msg; randoms := randoms w |}.

Definition next_random (w : World) : World :=
  {| files := files w; calls := calls w; outputs := outputs w;
     failed := failed w; randoms := S (randoms w) |}.

(** The monad of [run]: a result or an exception, and the world after. *)
Inductive Result (A : Type) : Type :=
| Ok (a : A)
| Throw (e : exn).
Arguments Ok {A} a.
Arguments Throw {A} e.

Definition M (A : Type) : Type := World -> Result A * World.

Definition ret {A} (a : A) : M A := fun w => (Ok a, w).

Definition throw {A} (e : exn) : M A := fun w => (Throw e, w).

Definition bind {A B} (m : M A) (k : A -> M B) : M B :=
  fun w =>
    match m w with
    | (Ok a, w') => k a w'
    | (Throw e, w') => (Throw e, w')
    end.

Notation "'let*' x ':=' m 'in' k" := (bind m (fun x => k))
  (at level 10, x name, m at level 100, k at level 200).

(** [if (test) throw new Error(msg)]. *)
Definition throw_if (test : bool) (msg : string) : M unit :=
  if test then throw (Error Thrown msg) else ret tt.

Definition tmpQrFile : string := "./s3-upload-action-qr.png".

Section WithEnv.
Variable env : Env.

(** [Math.random()]. *)
Definition random : M Q :=
  fun w => (Ok (Math_random env (randoms w)), next_random w).

(** [fs.readFileSync(path)]: throws when there is no such file. *)
Definition readFileSync (path : string) : M string :=
  fun w =>
    match files w !! path with
    | Some content => (Ok content, w)
    | None => (Throw (Error FileSystem ("ENOENT: no such file or directory, open '" ++ path ++ "'")), w)
    end.

(** [fs.unlinkSync(path)]: throws when there is no such file. *)
Definition unlinkSync (path : string) : M unit :=
  fun w =>
    match files w !! path with
    | Some _ => (Ok tt, set_files (delete path (files w)) w)
    | None => (Throw (Error FileSystem ("ENOENT: no such file or directory, unlink '" ++ path ++ "'")), w)
    end.

(** [await s3.putObject(params)]: the call is logged, then the service
    accepts or rejects it. *)
Definition putObject (params : object) : M unit :=
  fun w =>
    match s3_putObject env (calls w) params with
    | None => (Ok tt, add_call (PutObject params) w)
    | Some msg => (Throw (Error Storage msg), add_call (PutObject params) w)
    end.

(** [await getSignedUrl(s3, new GetObjectCommand(command), { expiresIn })]. *)
Definition getSignedUrl (command : object) (expiresIn : option Z) : M string :=
  fun w =>
    match s3_getSignedUrl env (calls w) command expiresIn with
    | inl url => (Ok url, add_call (GetSignedUrl command expiresIn) w)
    | inr msg => (Throw (Error Storage msg), add_call (GetSignedUrl command expiresIn) w)
    end.

(** [await qr.toFile(path, text, { width })]: the image is written to
    [path], or the encoder fails and nothing is written. *)
Definition toFile (path : string) (text : option string) (width : option Z) : M unit :=
  fun w =>
    match qr_toFile env text width with
    | inl image => (Ok tt, set_files (<[path := image]> (files w)) w)
    | inr msg => (Throw (Error QrCode msg), w)
    end.

(** [core.setOutput(name, value)]. *)
Definition setOutput (name value : string) : M unit :=
  fun w => (Ok tt, add_output name value w).

(** The loop of [getRandomStr]: [n] rounds remain and [r] is the string so
    far. *)
Fixpoint getRandomStr_loop (n : nat) (r : string) : M string :=
  match n with
  | O => ret r
  | S k =>
      let* u := random in
      getRandomStr_loop k (append_value r (pick u))
  end.

Definition getRandomStr (length : nat) : M string :=
  getRandomStr_loop length EmptyString.

(** [let destinationDir = ...], lines 96 to 106. *)
Definition getDestinationDir (input : Input.t) : M string :=
  if truthy (Input.destinationDir input)
  then ret (destinationDir input EmptyString)
  else let* r := getRandomStr 32 in ret (destinationDir input r).

(** [params] as built on lines 130 to 141. *)
Definition baseParams (input : Input.t) (fileKey body : string) : object :=
  let params : object :=
    <["ACL" := acl input]>
    (<["Body" := body]>
    (<["ContentDisposition" := or_else (Input.contentDisposition input) "inline"]>
    (<["ContentType" := Input.contentType input]>
    (<["Key" := fileKey]>
    (<["Bucket" := Input.awsBucket input]> ∅))))) in
  match tagging input with
  | Some tagging => <["Tagging" := serializeTags tagging]> params
  | None => params
  end.

(** The checksum handling of lines 143 to 176. *)
Definition withChecksum (input : Input.t) (params : object) : M object :=
  if negb (String.eqb (Input.checksumAlgorithm input) "") then
    let* _ := throw_if (negb (includes supportedAlgorithms (Input.checksumAlgorithm input)))
                       (checksum_message (Input.checksumAlgorithm input)) in
    let params := <["ChecksumAlgorithm" := Input.checksumAlgorithm input]> params in
    if negb (String.eqb (Input.checksum input) "") then
      let checksumValue := checksumValue (Input.checksum input) in
      match checksumField (Input.checksumAlgorithm input) with
      | Some field => ret (<[field := checksumValue]> params)
      | None => ret params
      end
    else ret params
  else ret params.

(** [fileUrl], lines 182 to 197. *)
Definition getFileUrl (input : Input.t) (expire : option Z) (fileKey : string) : M string :=
  if String.eqb (Input.public input) "true" then
    ret (rewriteUrl input (publicUrl input fileKey) (Input.alternativeDomainPublic input))
  else
    let* fileUrl :=
      getSignedUrl (<["Key" := fileKey]> (<["Bucket" := Input.awsBucket input]> ∅)) expire in
    ret (rewriteUrl input fileUrl (Input.alternativeDomainPrivate input)).

(** The QR code, lines 205 to 223.  [fileUrl] is [None] when the variable
    is [undefined]. *)
Definition qrParams (input : Input.t) (qrKey body : string) : object :=
  <["ACL" := "public-read"]>
  (<["Body" := body]>
  (<["ContentType" := "image/png"]>
  (<["Key" := qrKey]>
  (<["Bucket" := Input.awsBucket input]> ∅)))).

Definition qrStep (input : Input.t) (qrWidth : option Z) (destinationDir : string)
    (fileUrl : option string) : M unit :=
  let qrKey := qrKey input destinationDir in
  let* _ := toFile tmpQrFile fileUrl qrWidth in
  let* body := readFileSync tmpQrFile in
  let* _ := putObject (qrParams input qrKey body) in
  let* _ := unlinkSync tmpQrFile in
  let qrUrl := rewriteUrl input (publicUrl input qrKey) (Input.alternativeDomainPublic input) in
  setOutput "qr-url" qrUrl.

(** Lines 74 to 201 of [run]: validation, the upload of the file and its
    URL.  The result is what the rest of [run] reads: [destinationDir] and
    [fileUrl], which is [None] when no URL was asked for. *)
Definition upload (input : Input.t) : M (string * option string) :=
  let expire := expire input in
  let* _ := throw_if (expire_rejected expire) expire_message in
  let qrWidth := qrWidth input in
  let* _ := throw_if (qrWidth_rejected qrWidth) qrWidth_message in
  let* destinationDir := getDestinationDir input in
  let fileKey := fileKey input destinationDir in
  let* body := readFileSync (Input.filePath input) in
  let* params := withChecksum input (baseParams input fileKey body) in
  let* _ := putObject params in
  if String.eqb (Input.outputFileUrl input) "true"
     || String.eqb (Input.outputQrUrl input) "true"
  then
    let* fileUrl := getFileUrl input expire fileKey in
    let* _ := if String.eqb (Input.outputFileUrl input) "true"
              then setOutput "file-url" fileUrl else ret tt in
    ret (destinationDir, Some fileUrl)
  else ret (destinationDir, None).

(** [run(input)]: the upload, then the early return of line 203 or the QR
    code. *)
Definition run (input : Input.t) : M unit :=
  let* vars := upload input in
  if negb (String.eqb (Input.outputQrUrl input) "true") then ret tt
  else qrStep input (qrWidth input) (fst vars) (snd vars).

(** The last lines of the script: [run(input).then(...).catch(...)]. *)
Definition main (input : Input.t) (w : World) : World :=
  match run input w with
  | (Ok _, w') => add_output "result" "success" w'
  | (Throw e, w') => set_failed (message e) (add_output "result" "failure" w')
  end.

End WithEnv.

End Run.

(** ** The properties, in the words of the specification *)

Module Spec.
Import Js Action.

(** [expire] parses as an integer in [0, 604800]. *)
Definition expire_valid (input : Input.t) : Prop :=
  exists n : Z, parseInt (Input.expire input) = Some n /\ (0 <= n <= 604800)%Z.

(** [qr-width] parses as a non-zero integer in [100, 1000]. *)
Definition qrWidth_valid (input : Input.t) : Prop :=
  exists n : Z, parseInt (Input.qrWidth input) = Some n /\ n <> 0%Z /\ (100 <= n <= 1000)%Z.

(** A non-empty [checksum-algorithm] outside the supported set. *)
Definition algorithm_unsupported (input : Input.t) : Prop :=
  Input.checksumAlgorithm input <> EmptyString
  /\ ~ In (Input.checksumAlgorithm input) supportedAlgorithms.



(** No dollar sign in [s]. *)
Definition no_dollar (s : string) : bool :=
  all_chars (fun ch => negb (Ascii.eqb ch "$")) s.

(** The text before the first [sep] of [s] (all of [s] when there is none)
    and the text after it ([None] when there is none). *)
Fixpoint before_first (sep : ascii) (s : string) : string :=
  match s with
  | EmptyString => EmptyString
  | String ch t => if Ascii.eqb ch sep then EmptyString else String ch (before_first sep t)
  end.

Fixpoint after_first (sep : ascii) (s : string) : option string :=
  match s with
  | EmptyString => None
  | String ch t => if Ascii.eqb ch sep then Some t else after_first sep t
  end.

(** A pair as the specification reads it: the key is the text before the
    first [=], the value all the text after it, both trimmed; no [=], no
    value. *)
Definition parsePair_spec (pair : string) : Tag.t :=
  Tag.mk (trim (before_first "=" pair))
         (trim (match after_first "=" pair with Some v => v | None => EmptyString end)).

Definition parseTags_spec (tags : string) : list Tag.t :=
  map parsePair_spec (filter truthy (map trim (split "," tags))).

(** The number of occurrences of a character. *)
Fixpoint count_char (ch : ascii) (s : string) : nat :=
  match s with
  | EmptyString => O
  | String a t => (if Ascii.eqb a ch then 1 else 0) + count_char ch t
  end.

(** Every character of [s] is one of [alphabet]. *)
Definition drawn_from (alphabet : list ascii) (s : string) : Prop :=
  forall ch : ascii, In ch (list_ascii_of_string s) -> In ch alphabet.

(** The results of [Math.random()] lie in [0, 1). *)
Definition random_in_range (env : Run.Env) : Prop :=
  forall n : nat, (0 <= Run.Math_random env n)%Q /\ (Run.Math_random env n < 1)%Q.

(** [w'] differs from [w] at most in the count of random numbers drawn. *)
Definition same_io (w w' : Run.World) : Prop :=
  Run.files w' = Run.files w /\ Run.calls w' = Run.calls w
  /\ Run.outputs w' = Run.outputs w /\ Run.failed w' = Run.failed w.

(** The fields of [params] that carry a checksum. *)
Definition checksumFields : list string :=
  ["ChecksumAlgorithm"; "ChecksumCRC32"; "ChecksumCRC32C"; "ChecksumCRC64NVME";
   "ChecksumSHA1"; "ChecksumSHA256"].

(** [input] with another [checksum]. *)
Definition with_checksum (value : string) (input : Input.t) : Input.t :=
  Input.mk (Input.awsAccessKeyId input) (Input.awsSecretAccessKey input)
    (Input.awsRegion input) (Input.awsBucket input) (Input.filePath input)
    (Input.destinationDir input) (Input.bucketRoot input) (Input.outputFileUrl input)
    (Input.contentType input) (Input.contentDisposition input)
    (Input.outputQrUrl input) (Input.qrWidth input) (Input.public input)
    (Input.expire input) (Input.alternativeDomainPublic input)
    (Input.alternativeDomainPrivate input) (Input.tags input)
    (Input.checksumAlgorithm input) value.

(** Every character of [s] is white space or a comma. *)
Definition blank_tags (s : string) : bool :=
  all_chars (fun ch => isWhiteSpace ch || Ascii.eqb ch ",") s.

(** The decimal writing of a natural number, as JavaScript prints it. *)
Definition decimal (n : nat) : string := NilEmpty.string_of_uint (Nat.to_uint n).

(** A key or a value that the tag syntax can carry as it is: trimmed, and
    without comma or equals sign. *)
Definition plain (s : string) : Prop :=
  trim s = s /\ count_char "," s = 0%nat /\ count_char "=" s = 0%nat.

(** A tag written [Key=Value], and a list of tags written with commas. *)
Definition tag_text (t : Tag.t) : string := Tag.Key t ++ "=" ++ Tag.Value t.

Definition tags_text (l : list Tag.t) : string := join "," (map tag_text l).

End Spec.

(** ** Sample configurations *)

Module Sample.
Import Run.

(** A public upload of [y.txt] to bucket [b] in region [r], under the
    default root and the directory [x], with both URLs asked for. *)
Definition input : Input.t :=
  {| Input.awsAccessKeyId := "id"; Input.awsSecretAccessKey := "secret";
     Input.awsRegion := "r"; Input.awsBucket := "b"; Input.filePath := "y.txt";
     Input.destinationDir := "x"; Input.bucketRoot := "";
     Input.outputFileUrl := "true"; Input.contentType := "text/plain";
     Input.contentDisposition := ""; Input.outputQrUrl := "true";
     Input.qrWidth := "120"; Input.public := "true"; Input.expire := "180";
     Input.alternativeDomainPublic := ""; Input.alternativeDomainPrivate := "";
     Input.tags := "A=1, B=2,,C="; Input.checksumAlgorithm := "SHA256";
     Input.checksum := "deadbeef" |}.

Definition set_alternativeDomainPublic (domain : string) (i : Input.t) : Input.t :=
  {| Input.awsAccessKeyId := Input.awsAccessKeyId i;
     Input.awsSecretAccessKey := Input.awsSecretAccessKey i;
     Input.awsRegion := Input.awsRegion i; Input.awsBucket := Input.awsBucket i;
     Input.filePath := Input.filePath i; Input.destinationDir := Input.destinationDir i;
     Input.bucketRoot := Input.bucketRoot i; Input.outputFileUrl := Input.outputFileUrl i;
     Input.contentType := Input.contentType i;
     Input.contentDisposition := Input.contentDisposition i;
     Input.outputQrUrl := Input.outputQrUrl i; Input.qrWidth := Input.qrWidth i;
     Input.public := Input.public i; Input.expire := Input.expire i;
     Input.alternativeDomainPublic := domain;
     Input.alternativeDomainPrivate := Input.alternativeDomainPrivate i;
     Input.tags := Input.tags i; Input.checksumAlgorithm := Input.checksumAlgorithm i;
     Input.checksum := Input.checksum i |}.

Definition set_bucketRoot (root : string) (i : Input.t) : Input.t :=
  {| Input.awsAccessKeyId := Input.awsAccessKeyId i;
     Input.awsSecretAccessKey := Input.awsSecretAccessKey i;
     Input.awsRegion := Input.awsRegion i; Input.awsBucket := Input.awsBucket i;
     Input.filePath := Input.filePath i; Input.destinationDir := Input.destinationDir i;
     Input.bucketRoot := root; Input.outputFileUrl := Input.outputFileUrl i;
     Input.contentType := Input.contentType i;
     Input.contentDisposition := Input.contentDisposition i;
     Input.outputQrUrl := Input.outputQrUrl i; Input.qrWidth := Input.qrWidth i;
     Input.public := Input.public i; Input.expire := Input.expire i;
     Input.alternativeDomainPublic := Input.alternativeDomainPublic i;
     Input.alternativeDomainPrivate := Input.alternativeDomainPrivate i;
     Input.tags := Input.tags i; Input.checksumAlgorithm := Input.checksumAlgorithm i;
     Input.checksum := Input.checksum i |}.

Definition set_destinationDir (dir : string) (i : Input.t) : Input.t :=
  {| Input.awsAccessKeyId := Input.awsAccessKeyId i;
     Input.awsSecretAccessKey := Input.awsSecretAccessKey i;
     Input.awsRegion := Input.awsRegion i; Input.awsBucket := Input.awsBucket i;
     Input.filePath := Input.filePath i; Input.destinationDir := dir;
     Input.bucketRoot := Input.bucketRoot i; Input.outputFileUrl := Input.outputFileUrl i;
     Input.contentType := Input.contentType i;
     Input.contentDisposition := Input.contentDisposition i;
     Input.outputQrUrl := Input.outputQrUrl i; Input.qrWidth := Input.qrWidth i;
     Input.public := Input.public i; Input.expire := Input.expire i;
     Input.alternativeDomainPublic := Input.alternativeDomainPublic i;
     Input.alternativeDomainPrivate := Input.alternativeDomainPrivate i;
     Input.tags := Input.tags i; Input.checksumAlgorithm := Input.checksumAlgorithm i;
     Input.checksum := Input.checksum i |}.

Definition set_checksumAlgorithm (algorithm : string) (i : Input.t) : Input.t :=
  {| Input.awsAccessKeyId := Input.awsAccessKeyId i;
     Input.awsSecretAccessKey := Input.awsSecretAccessKey i;
     Input.awsRegion := Input.awsRegion i; Input.awsBucket := Input.awsBucket i;
     Input.filePath := Input.filePath i; Input.destinationDir := Input.destinationDir i;
     Input.bucketRoot := Input.bucketRoot i; Input.outputFileUrl := Input.outputFileUrl i;
     Input.contentType := Input.contentType i;
     Input.contentDisposition := Input.contentDisposition i;
     Input.outputQrUrl := Input.outputQrUrl i; Input.qrWidth := Input.qrWidth i;
     Input.public := Input.public i; Input.expire := Input.expire i;
     Input.alternativeDomainPublic := Input.alternativeDomainPublic i;
     Input.alternativeDomainPrivate := Input.alternativeDomainPrivate i;
     Input.tags := Input.tags i; Input.checksumAlgorithm := algorithm;
     Input.checksum := Input.checksum i |}.

Definition set_tags (tags : string) (i : Input.t) : Input.t :=
  {| Input.awsAccessKeyId := Input.awsAccessKeyId i;
     Input.awsSecretAccessKey := Input.awsSecretAccessKey i;
     Input.awsRegion := Input.awsRegion i; Input.awsBucket := Input.awsBucket i;
     Input.filePath := Input.filePath i; Input.destinationDir := Input.destinationDir i;
     Input.bucketRoot := Input.bucketRoot i; Input.outputFileUrl := Input.outputFileUrl i;
     Input.contentType := Input.contentType i;
     Input.contentDisposition := Input.contentDisposition i;
     Input.outputQrUrl := Input.outputQrUrl i; Input.qrWidth := Input.qrWidth i;
     Input.public := Input.public i; Input.expire := Input.expire i;
     Input.alternativeDomainPublic := Input.alternativeDomainPublic i;
     Input.alternativeDomainPrivate := Input.alternativeDomainPrivate i;
     Input.tags := tags; Input.checksumAlgorithm := Input.checksumAlgorithm i;
     Input.checksum := Input.checksum i |}.

(** Collaborators that never fail: the random numbers are [n/61] at call
    [n], the service accepts every upload, and the encoder returns a fixed
    image. *)
Definition env : Env :=
  {| Math_random := fun n => (Z.of_nat n # 61)%Q;
     s3_putObject := fun _ _ => None;
     s3_getSignedUrl := fun _ _ _ => inl "https://b.s3.r.amazonaws.com/artifacts/x/y.txt?X-Amz-Expires=180";
     qr_toFile := fun _ _ => inl "PNG" |}.

(** The same with [Math.random()] always returning [u]. *)
Definition constant_env (u : Q) : Env :=
  {| Math_random := fun _ => u;
     s3_putObject := s3_putObject env;
     s3_getSignedUrl := s3_getSignedUrl env;
     qr_toFile := qr_toFile env |}.

(** A service that accepts the first upload and rejects the next ones. *)
Definition env_second_upload_fails : Env :=
  {| Math_random := Math_random env;
     s3_putObject := fun calls _ => match calls with [] => None | _ :: _ => Some "AccessDenied" end;
     s3_getSignedUrl := s3_getSignedUrl env;
     qr_toFile := qr_toFile env |}.

(** A runner that holds the file to upload, and one that holds nothing. *)
Definition world : World :=
  {| files := {[ "y.txt" := "hello" ]}; calls := []; outputs := [];
     failed := None; randoms := 0 |}.

Definition empty_world : World :=
  {| files := ∅; calls := []; outputs := []; failed := None; randoms := 0 |}.


Definition set_public (flag : string) (i : Input.t) : Input.t :=
  {| Input.awsAccessKeyId := Input.awsAccessKeyId i;
     Input.awsSecretAccessKey := Input.awsSecretAccessKey i;
     Input.awsRegion := Input.awsRegion i; Input.awsBucket := Input.awsBucket i;
     Input.filePath := Input.filePath i; Input.destinationDir := Input.destinationDir i;
     Input.bucketRoot := Input.bucketRoot i; Input.outputFileUrl := Input.outputFileUrl i;
     Input.contentType := Input.contentType i;
     Input.contentDisposition := Input.contentDisposition i;
     Input.outputQrUrl := Input.outputQrUrl i; Input.qrWidth := Input.qrWidth i;
     Input.public := flag; Input.expire := Input.expire i;
     Input.alternativeDomainPublic := Input.alternativeDomainPublic i;
     Input.alternativeDomainPrivate := Input.alternativeDomainPrivate i;
     Input.tags := Input.tags i; Input.checksumAlgorithm := Input.checksumAlgorithm i;
     Input.checksum := Input.checksum i |}.



End Sample.

(** ** Facts about the built-ins *)

Module JsFacts.
Import Js Spec.

Lemma app_nil_r (s : string) : s ++ EmptyString = s.
Proof. induction s as [|ch s IH]; simpl; [reflexivity | now rewrite IH]. Qed.

Lemma app_assoc (a b d : string) : (a ++ b) ++ d = a ++ b ++ d.
Proof. induction a as [|ch a IH]; simpl; [reflexivity | now rewrite IH]. Qed.

Lemma truthy_true (s : string) : truthy s = true <-> s <> EmptyString.
Proof. destruct s; simpl; split; congruence. Qed.

Lemma or_else_empty (s : string) : or_else s EmptyString = s.
Proof. now destruct s. Qed.

(** *** [startsWith], [slice] *)

Lemma startsWith_app (p t : string) : startsWith p (p ++ t) = true.
Proof.
  induction p as [|ch p IH]; simpl; [reflexivity|].
  now rewrite Ascii.eqb_refl, IH.
Qed.

Lemma startsWith_inv (p s : string) :
  startsWith p s = true -> exists t, s = p ++ t.
Proof.
  revert s. induction p as [|ch p IH]; intros s H.
  - now exists s.
  - destruct s as [|b s]; simpl in H; [discriminate|].
    apply andb_prop in H as [Hc Hp].
    apply Ascii.eqb_eq in Hc. subst b.
    destruct (IH s Hp) as [t ->]. now exists t.
Qed.

Lemma slice_to_app (pre t : string) : slice_to (String.length pre) (pre ++ t) = pre.
Proof. induction pre as [|ch pre IH]; simpl; [now destruct t | now rewrite IH]. Qed.

Lemma slice_from_app (pre t : string) : slice_from (String.length pre) (pre ++ t) = t.
Proof. induction pre as [|ch pre IH]; simpl; [reflexivity | exact IH]. Qed.

(** *** [indexOf]: the first occurrence *)




(** *** [replace] *)

Lemma GetSubstitution_no_dollar (matched before after tmpl : string) :
  no_dollar tmpl = true -> GetSubstitution matched before after tmpl = tmpl.
Proof.
  induction tmpl as [|ch t IH]; intros H; [reflexivity|].
  unfold no_dollar in H. simpl in H. apply andb_prop in H as [Hc Ht].
  cbn [GetSubstitution]. destruct (Ascii.eqb ch "$"); [discriminate|].
  now rewrite (IH Ht).
Qed.

Lemma no_dollar_app (a b : string) :
  no_dollar (a ++ b) = no_dollar a && no_dollar b.
Proof.
  unfold no_dollar. induction a as [|ch a IH]; simpl; [reflexivity|].
  now rewrite IH, andb_assoc.
Qed.




End JsFacts.

(** ** Properties of the action *)

Module Properties.
Import Js Action Run Spec JsFacts.

(** *** The bucket root *)

Lemma normalize_empty (dir : string) :
  dir <> EmptyString -> normalize dir = EmptyString -> dir = "/".
Proof.
  intros Hne H. unfold normalize in H.
  destruct dir as [|a t]; [congruence|].
  destruct (startsWith "/" (String a t)) eqn:Ea.
  - destruct (startsWith_inv _ _ Ea) as [t' Ht']. simpl in Ht'.
    injection Ht' as -> ->. cbn [slice_from] in H.
    destruct t' as [|b t']; [reflexivity|]. cbn [truthy andb] in H.
    destruct (negb (endsWith "/" (String b t'))); discriminate.
  - cbn [truthy andb] in H.
    destruct (negb (endsWith "/" (String a t))); discriminate.
Qed.

(** The normalised root is empty for the input ["/"] and for no other. *)
Lemma bucketRoot_empty_iff (input : Input.t) :
  bucketRoot input = EmptyString <-> Input.bucketRoot input = "/".
Proof.
  unfold bucketRoot. split.
  - destruct (truthy (Input.bucketRoot input)) eqn:E; [|discriminate].
    apply normalize_empty. now apply truthy_true.
  - intros ->. reflexivity.
Qed.

Lemma bucketRoot_default (input : Input.t) :
  Input.bucketRoot input = EmptyString -> bucketRoot input = "artifacts/".
Proof. unfold bucketRoot. now intros ->. Qed.

(** C9: for [bucket-root] equal to ["/"] the normalised root is the empty
    string, not the default, and the object key is the destination directory
    followed by the base name of the file, with no root before it. *)
Theorem bucketRoot_slash (input : Input.t) :
  Input.bucketRoot input = "/" ->
  bucketRoot input = EmptyString
  /\ bucketRoot input <> "artifacts/"
  /\ forall destinationDir : string,
       fileKey input destinationDir = destinationDir ++ basename (Input.filePath input).
Proof.
  intros H. apply bucketRoot_empty_iff in H. unfold fileKey. rewrite H.
  repeat split. discriminate.
Qed.

Lemma bucketRoot_slash_witness :
  bucketRoot (Sample.set_bucketRoot "/" Sample.input) = EmptyString
  /\ bucketRoot (Sample.set_bucketRoot "/" Sample.input) <> "artifacts/"
  /\ forall destinationDir : string,
       fileKey (Sample.set_bucketRoot "/" Sample.input) destinationDir
       = destinationDir ++ basename (Input.filePath (Sample.set_bucketRoot "/" Sample.input)).
Proof. apply (bucketRoot_slash (Sample.set_bucketRoot "/" Sample.input)). reflexivity. Defined.

(** *** The checksum *)

Lemma test_hex_spec (s : string) :
  test_hex s = true <->
  s <> EmptyString /\ forall ch, In ch (list_ascii_of_string s) -> isHexDigit ch = true.
Proof.
  unfold test_hex. rewrite andb_true_iff, truthy_true.
  assert (A : all_chars isHexDigit s = true <->
              forall ch, In ch (list_ascii_of_string s) -> isHexDigit ch = true).
  { induction s as [|a t IH]; simpl.
    - split; [intros _ ch [] | reflexivity].
    - rewrite andb_true_iff, IH. split.
      + intros [Ha Ht] ch [<-|Hin]; auto.
      + intros H. split; [apply H; now left | intros ch Hin; apply H; now right]. }
  now rewrite A.
Qed.




(** The two examples of the specification: a hexadecimal value is
    converted, a value with another character is kept. *)
Example checksumValue_deadbeef : checksumValue "deadbeef" = "3q2+7w==".
Proof. reflexivity. Qed.

Example checksumValue_base64 : checksumValue "3q2+7w==" = "3q2+7w==".
Proof. reflexivity. Qed.

(** *** The random directory *)

Lemma same_io_refl (w : World) : same_io w w.
Proof. now repeat split. Qed.

Lemma get_in (s : string) (n : nat) :
  (n < String.length s)%nat ->
  exists ch, String.get n s = Some ch /\ In ch (list_ascii_of_string s).
Proof.
  revert n. induction s as [|a t IH]; intros n H; simpl in H; [lia|].
  destruct n as [|n]; simpl.
  - exists a. split; [reflexivity | now left].
  - destruct (IH n) as (ch & Hg & Hin); [lia|]. exists ch. split; [exact Hg | now right].
Qed.

(** A result of [Math.random()] picks a character of the alphabet. *)
Lemma pick_in_range (u : Q) :
  (0 <= u)%Q -> (u < 1)%Q ->
  exists ch, pick u = Some (String ch EmptyString) /\ In ch (list_ascii_of_string c).
Proof.
  intros H0 H1. unfold pick, charAt.
  set (n := Z.of_nat (String.length c)).
  assert (Hn : n = 61%Z) by reflexivity.
  assert (Hlo : (0 <= Qfloor (u * inject_Z n))%Z).
  { rewrite <- (Qfloor_Z 0). apply Qfloor_resp_le. rewrite Hn.
    apply Qmult_le_0_compat; [exact H0 | discriminate]. }
  assert (Hhi : (Qfloor (u * inject_Z n) < n)%Z).
  { rewrite Zlt_Qlt. eapply Qle_lt_trans; [apply Qfloor_le|]. rewrite Hn.
    apply Qlt_le_trans with (1 * inject_Z 61)%Q.
    - apply Qmult_lt_compat_r; [reflexivity | exact H1].
    - rewrite Qmult_1_l. apply Qle_refl. }
  revert Hlo Hhi. rewrite Hn. generalize (Qfloor (u * inject_Z 61)).
  intros z Hlo Hhi.
  destruct (Z.ltb_spec z 0) as [Hneg|_]; [lia|].
  destruct (get_in c (Z.to_nat z)) as (ch & Hg & Hin).
  { change (String.length c) with 61%nat. lia. }
  exists ch. rewrite Hg. split; [reflexivity | exact Hin].
Qed.

(** The loop never throws and touches nothing but the count of random
    numbers; the string it returns extends the one it starts from. *)
Lemma getRandomStr_loop_frame (env : Env) (n : nat) (r : string) (w : World) :
  exists s w', getRandomStr_loop env n r w = (Ok (r ++ s), w') /\ same_io w w'.
Proof.
  revert r w. induction n as [|n IH]; intros r w; simpl.
  - exists EmptyString, w. rewrite app_nil_r. split; [reflexivity | apply same_io_refl].
  - unfold bind, random.
    destruct (IH (append_value r (pick (Math_random env (randoms w)))) (next_random w))
      as (s & w' & Heq & Hio).
    rewrite Heq. unfold append_value. rewrite app_assoc. eexists _, w'.
    split; [reflexivity | exact Hio].
Qed.

Lemma getRandomStr_loop_drawn (env : Env) (n : nat) (r : string) (w : World) :
  random_in_range env ->
  exists s w', getRandomStr_loop env n r w = (Ok (r ++ s), w')
    /\ String.length s = n /\ drawn_from (list_ascii_of_string c) s.
Proof.
  intros Hr. revert r w. induction n as [|n IH]; intros r w; simpl.
  - exists EmptyString, w. rewrite app_nil_r. repeat split. intros ch [].
  - unfold bind, random.
    destruct (Hr (randoms w)) as [H0 H1].
    destruct (pick_in_range _ H0 H1) as (ch & Hp & Hin). rewrite Hp.
    destruct (IH (append_value r (Some (String ch EmptyString))) (next_random w))
      as (s & w' & Heq & Hl & Hd).
    rewrite Heq. unfold append_value. rewrite app_assoc.
    exists (String ch s), w'. repeat split.
    + simpl. now rewrite Hl.
    + intros x [<-|Hx]; [exact Hin | now apply Hd].
Qed.

Lemma getDestinationDir_frame (env : Env) (input : Input.t) (w : World) :
  exists d w', getDestinationDir env input w = (Ok d, w') /\ same_io w w'.
Proof.
  unfold getDestinationDir. destruct (truthy (Input.destinationDir input)).
  - exists (destinationDir input EmptyString), w. split; [reflexivity | apply same_io_refl].
  - unfold getRandomStr, bind.
    destruct (getRandomStr_loop_frame env 32 EmptyString w) as (s & w' & Heq & Hio).
    rewrite Heq. eexists _, w'. split; [reflexivity | exact Hio].
Qed.

Lemma alphabet_NoDup : List.NoDup (list_ascii_of_string c).
Proof.
  apply (NoDup_count_occ' Ascii.ascii_dec). intros ch Hin.
  simpl in Hin. repeat (destruct Hin as [<-|Hin]; [vm_compute; reflexivity|]).
  destruct Hin.
Qed.

(** C3, as the code has it: with an empty [destination-dir] and
    [Math.random()] in [0, 1), the destination directory is 32 characters of
    the alphabet of [getRandomStr] followed by a slash; that alphabet has 61
    characters, all different. *)
Theorem random_destinationDir (env : Env) (input : Input.t) (w : World) :
  random_in_range env ->
  Input.destinationDir input = EmptyString ->
  exists r w',
    getDestinationDir env input w = (Ok (r ++ "/"), w')
    /\ String.length r = 32%nat
    /\ drawn_from (list_ascii_of_string c) r
    /\ String.length c = 61%nat
    /\ List.NoDup (list_ascii_of_string c).
Proof.
  intros Hr Hd. unfold getDestinationDir, destinationDir. rewrite Hd. cbn [truthy].
  unfold getRandomStr, bind.
  destruct (getRandomStr_loop_drawn env 32 EmptyString w Hr) as (s & w' & Heq & Hl & Hdr).
  rewrite Heq. exists s, w'. repeat split; auto. apply alphabet_NoDup.
Qed.

Lemma sample_random_in_range : random_in_range (Sample.constant_env (60 # 61)).
Proof. intros n. split; simpl; [discriminate | reflexivity]. Qed.

Lemma random_destinationDir_witness :
  exists r w',
    getDestinationDir (Sample.constant_env (60 # 61))
      (Sample.set_destinationDir "" Sample.input) Sample.world = (Ok (r ++ "/"), w')
    /\ String.length r = 32%nat
    /\ drawn_from (list_ascii_of_string c) r
    /\ String.length c = 61%nat
    /\ List.NoDup (list_ascii_of_string c).
Proof.
  apply (random_destinationDir (Sample.constant_env (60 # 61))
           (Sample.set_destinationDir "" Sample.input) Sample.world).
  - exact sample_random_in_range.
  - reflexivity.
Defined.

Lemma in_get (s : string) (ch : ascii) :
  In ch (list_ascii_of_string s) ->
  exists i : nat, (i < String.length s)%nat /\ String.get i s = Some ch.
Proof.
  induction s as [|a t IH]; simpl; [intros []|].
  intros [<-|Hin].
  - exists O. split; [lia | reflexivity].
  - destruct (IH Hin) as (i & Hi & Hg). exists (S i). split; [lia | exact Hg].
Qed.

Lemma constant_env_in_range (i : nat) :
  (i < 61)%nat -> random_in_range (Sample.constant_env (Z.of_nat i # 61)).
Proof.
  intros Hi n. unfold Qle, Qlt. simpl. split; lia.
Qed.

(** With [Math.random()] constantly [i/61], the string starts with the
    character of the alphabet at position [i]. *)
Lemma constant_env_draws (i : nat) (ch : ascii) :
  (i < 61)%nat -> String.get i c = Some ch ->
  exists (s : string) (w' : World),
    getRandomStr (Sample.constant_env (Z.of_nat i # 61)) 32 Sample.world
    = (Ok (String ch s), w').
Proof.
  intros Hi Hg.
  do 61 (destruct i as [|i];
         [injection Hg as <-; eexists _, _; vm_compute; reflexivity|]).
  lia.
Qed.

(** C3, counterexample: no alphabet of 60 characters holds every string
    [getRandomStr(32)] can return, since each of the 61 characters of its
    alphabet is drawn for some result of [Math.random()]. *)
Lemma no_alphabet_of_60 :
  ~ exists alphabet : list ascii,
      List.length alphabet = 60%nat
      /\ forall (env : Env) (w w' : World) (r : string),
           random_in_range env ->
           getRandomStr env 32 w = (Ok r, w') -> drawn_from alphabet r.
Proof.
  intros (alphabet & Hlen & Hall).
  assert (Hincl : incl (list_ascii_of_string c) alphabet).
  { intros ch Hin. destruct (in_get c ch Hin) as (i & Hi & Hg).
    change (String.length c) with 61%nat in Hi.
    destruct (constant_env_draws i ch Hi Hg) as (s & w' & Hrun).
    apply (Hall _ _ _ _ (constant_env_in_range i Hi) Hrun). now left. }
  pose proof (List.NoDup_incl_length alphabet_NoDup Hincl) as Hle.
  rewrite Hlen in Hle. change (List.length (list_ascii_of_string c)) with 61%nat in Hle.
  lia.
Qed.

(** *** Validation *)

Lemma expire_rejected_iff (input : Input.t) :
  expire_rejected (expire input) = false <-> expire_valid input.
Proof.
  unfold expire_rejected, expire_valid, expire, number_truthy, bitor, bit_of, isNaN, lt.
  destruct (parseInt (Input.expire input)) as [n|].
  - destruct (Z.ltb_spec n 0), (Z.ltb_spec 604800 n); simpl; split;
      try discriminate; try (intros (m & [= <-] & Hm); lia).
    intros _. exists n. split; [reflexivity | lia].
  - simpl. split; [discriminate | intros (m & [=] & _)].
Qed.

Lemma qrWidth_rejected_iff (input : Input.t) :
  qrWidth_rejected (qrWidth input) = false <-> qrWidth_valid input.
Proof.
  unfold qrWidth_rejected, qrWidth_valid, qrWidth, number_truthy, bitor, bit_of,
    not_number, lt.
  destruct (parseInt (Input.qrWidth input)) as [n|].
  - destruct (Z.eqb_spec n 0), (Z.ltb_spec n 100), (Z.ltb_spec 1000 n); simpl; split;
      try discriminate; try (intros (m & [= <-] & Hm); lia).
    intros _. exists n. repeat split; (assumption || lia).
  - simpl. split; [discriminate | intros (m & [=] & _)].
Qed.

Lemma includes_In (l : list string) (x : string) : includes l x = true <-> In x l.
Proof.
  unfold includes. rewrite existsb_exists. split.
  - intros (y & Hin & Heq). apply String.eqb_eq in Heq. now subst.
  - intros Hin. exists x. split; [exact Hin | apply String.eqb_refl].
Qed.

Lemma withChecksum_unsupported (input : Input.t) (params : object) (w : World) :
  algorithm_unsupported input ->
  withChecksum input params w
  = (Throw (Error Thrown (checksum_message (Input.checksumAlgorithm input))), w).
Proof.
  intros [Hne Hnot]. unfold withChecksum.
  apply String.eqb_neq in Hne. rewrite Hne. cbn [negb].
  destruct (includes supportedAlgorithms (Input.checksumAlgorithm input)) eqn:E.
  - apply includes_In in E. contradiction.
  - reflexivity.
Qed.

(** C4, as the code has it: an input with an invalid [expire], an invalid
    [qr-width] or an unsupported algorithm makes [run] throw with no call to
    the storage service, no file changed and no output set.  What is thrown
    is the validation error when [expire] or [qr-width] is the invalid one,
    and for the algorithm when the file to upload can be read. *)
Theorem invalid_input_fails_before_network (env : Env) (input : Input.t) (w : World) :
  ~ expire_valid input \/ ~ qrWidth_valid input \/ algorithm_unsupported input ->
  exists (e : exn) (w' : World),
    run env input w = (Throw e, w')
    /\ same_io w w'
    /\ (~ expire_valid input \/ ~ qrWidth_valid input
        \/ is_Some (files w !! Input.filePath input) -> origin e = Thrown).
Proof.
  intros H. unfold run, upload.
  destruct (expire_rejected (expire input)) eqn:E1.
  { eexists _, w. repeat split; reflexivity. }
  destruct (qrWidth_rejected (qrWidth input)) eqn:E2.
  { eexists _, w. repeat split; reflexivity. }
  apply expire_rejected_iff in E1 as V1. apply qrWidth_rejected_iff in E2 as V2.
  destruct H as [H|[H|H]]; [contradiction | contradiction |].
  destruct (getDestinationDir_frame env input w) as (d & w1 & Hd & Hio).
  unfold bind, throw_if. cbv beta iota. unfold ret at 1 2. cbv beta iota.
  rewrite Hd. cbv beta iota.
  unfold readFileSync. destruct Hio as (Hf & Hc & Ho & Hfl).
  rewrite Hf. destruct (files w !! Input.filePath input) as [body|] eqn:Ef.
  - rewrite (withChecksum_unsupported _ _ _ H). eexists _, w1.
    repeat split; auto.
  - eexists _, w1. repeat split; auto.
    intros [C|[C|[x C]]]; [contradiction | contradiction | discriminate].
Qed.

Lemma invalid_input_fails_before_network_witness :
  exists (e : exn) (w' : World),
    run Sample.env (Sample.set_checksumAlgorithm "MD5" Sample.input) Sample.world
    = (Throw e, w')
    /\ same_io Sample.world w'
    /\ (~ expire_valid (Sample.set_checksumAlgorithm "MD5" Sample.input)
        \/ ~ qrWidth_valid (Sample.set_checksumAlgorithm "MD5" Sample.input)
        \/ is_Some (files Sample.world
                      !! Input.filePath (Sample.set_checksumAlgorithm "MD5" Sample.input))
        -> origin e = Thrown).
Proof.
  apply (invalid_input_fails_before_network Sample.env
           (Sample.set_checksumAlgorithm "MD5" Sample.input) Sample.world).
  right. right. split.
  - discriminate.
  - simpl. intros [H|[H|[H|[H|[H|[]]]]]]; discriminate.
Defined.

(** C4, counterexample: with an unsupported algorithm and no file at
    [file-path], what [run] throws is the error of [fs.readFileSync], not
    the validation error. *)
Lemma unsupported_algorithm_missing_file :
  algorithm_unsupported (Sample.set_checksumAlgorithm "MD5" Sample.input)
  /\ run Sample.env (Sample.set_checksumAlgorithm "MD5" Sample.input) Sample.empty_world
     = (Throw (Error FileSystem "ENOENT: no such file or directory, open 'y.txt'"),
        Sample.empty_world).
Proof.
  split.
  - split; [discriminate|].
    simpl. intros [H|[H|[H|[H|[H|[]]]]]]; discriminate.
  - vm_compute. reflexivity.
Qed.

(** *** The QR code *)

(** The QR step once the encoder has written the image: the image is
    uploaded with [qrParams]; when the service accepts it the temporary
    file is removed and the step ends normally, when it rejects it the step
    throws and the file stays. *)
Lemma qrStep_rendered (env : Env) (input : Input.t) (width : option Z) (d : string)
    (u : option string) (w1 : World) (image : string) :
  qr_toFile env u width = inl image ->
  exists (r : Result unit) (w' : World),
    qrStep env input width d u w1 = (r, w')
    /\ calls w' = (calls w1 ++ [PutObject (qrParams input (qrKey input d) image)])%list
    /\ match s3_putObject env (calls w1) (qrParams input (qrKey input d) image) with
       | None => r = Ok tt /\ files w' = delete tmpQrFile (files w1)
       | Some msg =>
           r = Throw (Error Storage msg) /\ files w' = <[tmpQrFile := image]> (files w1)
       end.
Proof.
  intros Hqr. unfold qrStep, bind, toFile. rewrite Hqr.
  unfold readFileSync. cbn [files set_files]. rewrite lookup_insert_eq.
  unfold putObject. cbn [calls set_files].
  destruct (s3_putObject env (calls w1) (qrParams input (qrKey input d) image)) as [msg|].
  - eexists _, _. split; [reflexivity|]. split; [reflexivity|]. split; reflexivity.
  - unfold unlinkSync. cbn [files add_call set_files]. rewrite lookup_insert_eq.
    eexists _, _. split; [reflexivity|]. split; [reflexivity|].
    split; [reflexivity|]. cbn [files add_output set_files].
    now rewrite delete_insert_eq.
Qed.

(** C7: when [run] reaches the QR step and the image is rendered, the next
    and last call to the storage service uploads the image under the root
    and the directory of the run with the name [qr.png], the ACL
    [public-read] and the content type [image/png], whatever [public] is. *)
Theorem qr_upload_is_public (env : Env) (input : Input.t) (w w1 : World)
    (d : string) (u : option string) (image : string) :
  upload env input w = (Ok (d, u), w1) ->
  Input.outputQrUrl input = "true" ->
  qr_toFile env u (qrWidth input) = inl image ->
  exists (r : Result unit) (w' : World) (p : object),
    run env input w = (r, w')
    /\ calls w' = (calls w1 ++ [PutObject p])%list
    /\ p !! "Bucket" = Some (Input.awsBucket input)
    /\ p !! "Key" = Some (bucketRoot input ++ d ++ "qr.png")
    /\ p !! "ACL" = Some "public-read"
    /\ p !! "ContentType" = Some "image/png"
    /\ p !! "Body" = Some image.
Proof.
  intros Hup Hout Hqr. unfold run, bind. rewrite Hup, Hout. cbn [String.eqb negb fst snd].
  change (("true" =? "true")%string) with true. cbn [negb].
  destruct (qrStep_rendered env input (qrWidth input) d u w1 image Hqr)
    as (r & w' & Hstep & Hcalls & _).
  exists r, w', (qrParams input (qrKey input d) image).
  split; [exact Hstep|]. split; [exact Hcalls|].
  unfold qrParams, qrKey. repeat split; by simplify_map_eq.
Qed.

Lemma qr_upload_is_public_witness :
  exists (r : Result unit) (w' : World) (p : object),
    run Sample.env Sample.input Sample.world = (r, w')
    /\ calls w' = (calls (snd (upload Sample.env Sample.input Sample.world))
                   ++ [PutObject p])%list
    /\ p !! "Bucket" = Some "b"
    /\ p !! "Key" = Some "artifacts/x/qr.png"
    /\ p !! "ACL" = Some "public-read"
    /\ p !! "ContentType" = Some "image/png"
    /\ p !! "Body" = Some "PNG".
Proof.
  apply (qr_upload_is_public Sample.env Sample.input Sample.world
           (snd (upload Sample.env Sample.input Sample.world)) "x/"
           (Some "https://b.s3.r.amazonaws.com/artifacts/x/y.txt") "PNG").
  - vm_compute. reflexivity.
  - reflexivity.
  - reflexivity.
Defined.

(** C2, as the code has it: when [run] reaches the QR step, the image is
    rendered and the service accepts its upload, [run] ends normally and
    the temporary file is no longer there. *)
Theorem qr_file_removed (env : Env) (input : Input.t) (w w1 : World)
    (d : string) (u : option string) (image : string) :
  upload env input w = (Ok (d, u), w1) ->
  Input.outputQrUrl input = "true" ->
  qr_toFile env u (qrWidth input) = inl image ->
  s3_putObject env (calls w1) (qrParams input (qrKey input d) image) = None ->
  exists w' : World,
    run env input w = (Ok tt, w') /\ files w' !! tmpQrFile = None.
Proof.
  intros Hup Hout Hqr Hput. unfold run, bind. rewrite Hup, Hout.
  change (("true" =? "true")%string) with true. cbn [negb fst snd].
  destruct (qrStep_rendered env input (qrWidth input) d u w1 image Hqr)
    as (r & w' & Hstep & _ & Hcase).
  rewrite Hput in Hcase. destruct Hcase as [-> Hfiles].
  exists w'. split; [exact Hstep|]. rewrite Hfiles. apply lookup_delete_eq.
Qed.

Lemma qr_file_removed_witness :
  exists w' : World,
    run Sample.env Sample.input Sample.world = (Ok tt, w')
    /\ files w' !! tmpQrFile = None.
Proof.
  apply (qr_file_removed Sample.env Sample.input Sample.world
           (snd (upload Sample.env Sample.input Sample.world)) "x/"
           (Some "https://b.s3.r.amazonaws.com/artifacts/x/y.txt") "PNG").
  - vm_compute. reflexivity.
  - reflexivity.
  - reflexivity.
  - reflexivity.
Defined.

(** C2, counterexample: the QR step is enabled and reached, the image is
    written, the service rejects its upload; [run] throws and, after the
    script has reported the failure, the temporary file is still there. *)
Lemma qr_file_left_behind :
  Input.outputQrUrl Sample.input = "true"
  /\ (exists (d : string) (u : option string) (w1 : World),
        upload Sample.env_second_upload_fails Sample.input Sample.world = (Ok (d, u), w1))
  /\ fst (run Sample.env_second_upload_fails Sample.input Sample.world)
     = Throw (Error Storage "AccessDenied")
  /\ files (main Sample.env_second_upload_fails Sample.input Sample.world) !! tmpQrFile
     = Some "PNG".
Proof.
  split; [reflexivity|]. split.
  - eexists _, _, _. vm_compute. reflexivity.
  - split; vm_compute; reflexivity.
Qed.

(** *** The URLs *)






(** *** The calls of the upload *)

Lemma withChecksum_world (input : Input.t) (params : object) (w : World) :
  snd (withChecksum input params w) = w
  /\ forall w0, fst (withChecksum input params w0) = fst (withChecksum input params w).
Proof.
  unfold withChecksum, bind, throw_if, throw, ret.
  destruct (negb (Input.checksumAlgorithm input =? "")%string); [|now split].
  destruct (negb (includes supportedAlgorithms (Input.checksumAlgorithm input)));
    [now split|].
  destruct (negb (Input.checksum input =? "")%string); [|now split].
  destruct (checksumField (Input.checksumAlgorithm input)); now split.
Qed.

Lemma getFileUrl_calls (env : Env) (input : Input.t) (e : option Z) (k : string)
    (w : World) :
  exists rest : list Call,
    calls (snd (getFileUrl env input e k w)) = (calls w ++ rest)%list
    /\ forall p, ~ In (PutObject p) rest.
Proof.
  unfold getFileUrl, bind, getSignedUrl, ret.
  destruct (Input.public input =? "true")%string.
  - exists []. rewrite List.app_nil_r. split; [reflexivity | intros p []].
  - destruct (s3_getSignedUrl env (calls w) _ e);
      (eexists [_]; split; [reflexivity | intros p [H|[]]; discriminate]).
Qed.

(** The calls of [upload]: none, or the upload of the file with the
    parameters built by [baseParams] and [withChecksum], followed by no
    other upload. *)
Lemma upload_calls (env : Env) (input : Input.t) (w w1 : World)
    (r : Result (string * option string)) :
  upload env input w = (r, w1) ->
  calls w1 = calls w
  \/ exists (d body : string) (params : object) (rest : list Call),
       files w !! Input.filePath input = Some body
       /\ fst (withChecksum input (baseParams input (fileKey input d) body) w) = Ok params
       /\ calls w1 = (calls w ++ PutObject params :: rest)%list
       /\ forall p, ~ In (PutObject p) rest.
Proof.
  unfold upload. intros H.
  destruct (expire_rejected (expire input)); [injection H as <- <-; now left|].
  destruct (qrWidth_rejected (qrWidth input)); [injection H as <- <-; now left|].
  destruct (getDestinationDir_frame env input w) as (d & w0 & Hd & Hf & Hc & _).
  unfold bind, throw_if in H. cbv beta iota in H. unfold ret at 1 2 in H.
  cbv beta iota in H. rewrite Hd in H. cbv beta iota in H.
  unfold readFileSync in H. rewrite Hf in H.
  destruct (files w !! Input.filePath input) as [body|] eqn:Ef;
    [|injection H as <- <-; left; exact Hc].
  destruct (withChecksum_world input (baseParams input (fileKey input d) body) w0)
    as [Hw Hr].
  destruct (withChecksum input (baseParams input (fileKey input d) body) w0)
    as [[params|ex] w2] eqn:Ew; simpl in Hw; subst w2;
    [|injection H as <- <-; left; exact Hc].
  right. exists d, body, params.
  assert (Hp : fst (withChecksum input (baseParams input (fileKey input d) body) w)
               = Ok params).
  { rewrite (Hr w). reflexivity. }
  unfold putObject in H.
  destruct (s3_putObject env (calls w0) params) as [msg|].
  { injection H as <- <-. exists []. repeat split; auto.
    cbn [calls add_call]. now rewrite Hc. }
  destruct ((Input.outputFileUrl input =? "true")%string
            || (Input.outputQrUrl input =? "true")%string).
  - destruct (getFileUrl_calls env input (expire input) (fileKey input d)
                (add_call (PutObject params) w0)) as (rest & Hrest & Hno).
    exists rest. repeat split; auto.
    destruct (getFileUrl env input (expire input) (fileKey input d)
                (add_call (PutObject params) w0)) as [[url|ex] w3];
      cbn [snd] in Hrest.
    + destruct (Input.outputFileUrl input =? "true")%string;
        unfold setOutput, ret in H; injection H as <- <-;
        cbn [calls add_output]; rewrite Hrest;
        cbn [calls add_call]; rewrite Hc, <- List.app_assoc; reflexivity.
    + injection H as <- <-. rewrite Hrest. cbn [calls add_call].
      rewrite Hc, <- List.app_assoc. reflexivity.
  - unfold ret in H. injection H as <- <-. exists []. repeat split; auto.
    cbn [calls add_call]. now rewrite Hc.
Qed.

(** *** An empty algorithm *)

Lemma withChecksum_empty (input : Input.t) (params : object) (w : World) :
  Input.checksumAlgorithm input = EmptyString ->
  withChecksum input params w = (Ok params, w).
Proof. intros H. unfold withChecksum. rewrite H. reflexivity. Qed.

Lemma baseParams_no_checksum (input : Input.t) (key body field : string) :
  In field checksumFields -> baseParams input key body !! field = None.
Proof.
  unfold checksumFields, baseParams. simpl.
  intros [<-|[<-|[<-|[<-|[<-|[<-|[]]]]]]];
    destruct (tagging input); by simplify_map_eq.
Qed.

Lemma run_with_checksum (env : Env) (input : Input.t) (value : string) (w : World) :
  Input.checksumAlgorithm input = EmptyString ->
  run env (with_checksum value input) w = run env input w.
Proof.
  destruct input. simpl. intros ->. reflexivity.
Qed.

(** C10: with an empty [checksum-algorithm], [run] does the same whatever
    [checksum] is (nothing is thrown because of it), and the upload of the
    file carries neither [ChecksumAlgorithm] nor any checksum value. *)
Theorem empty_algorithm_ignores_checksum (env : Env) (input : Input.t) (w : World) :
  Input.checksumAlgorithm input = EmptyString ->
  (forall value : string, run env (with_checksum value input) w = run env input w)
  /\ (forall (r : Result (string * option string)) (w1 : World),
        upload env input w = (r, w1) ->
        exists new : list Call,
          calls w1 = (calls w ++ new)%list
          /\ forall (p : object) (field : string),
               In (PutObject p) new -> In field checksumFields -> p !! field = None).
Proof.
  intros Halg. split.
  - intros value. now apply run_with_checksum.
  - intros r w1 Hup.
    destruct (upload_calls env input w w1 r Hup)
      as [Hsame|(d & body & params & rest & _ & Hp & Hcalls & Hno)].
    + exists []. rewrite List.app_nil_r. split; [exact Hsame | intros p field []].
    + rewrite (withChecksum_empty _ _ _ Halg) in Hp. injection Hp as <-.
      eexists. split; [exact Hcalls|].
      intros p field [[= <-]|Hin] Hf.
      * now apply baseParams_no_checksum.
      * destruct (Hno p Hin).
Qed.

Lemma empty_algorithm_ignores_checksum_witness :
  (forall value : string,
     run Sample.env (with_checksum value (Sample.set_checksumAlgorithm "" Sample.input))
       Sample.world
     = run Sample.env (Sample.set_checksumAlgorithm "" Sample.input) Sample.world)
  /\ (forall (r : Result (string * option string)) (w1 : World),
        upload Sample.env (Sample.set_checksumAlgorithm "" Sample.input) Sample.world
        = (r, w1) ->
        exists new : list Call,
          calls w1 = (calls Sample.world ++ new)%list
          /\ forall (p : object) (field : string),
               In (PutObject p) new -> In field checksumFields -> p !! field = None).
Proof.
  apply (empty_algorithm_ignores_checksum Sample.env
           (Sample.set_checksumAlgorithm "" Sample.input) Sample.world).
  reflexivity.
Defined.

(** *** Tags *)

Lemma split_nonempty (sep : ascii) (s : string) : split sep s <> [].
Proof.
  destruct s as [|ch t]; simpl; [discriminate|].
  destruct (Ascii.eqb ch sep); [discriminate|].
  destruct (split sep t); discriminate.
Qed.

(** The pieces of [split]: the text before the first separator, then the
    pieces of the text after it. *)
Lemma split_before_after (sep : ascii) (s : string) :
  split sep s
  = before_first sep s
    :: match after_first sep s with Some rest => split sep rest | None => [] end.
Proof.
  induction s as [|ch t IH]; simpl; [reflexivity|].
  destruct (Ascii.eqb ch sep); [reflexivity|].
  rewrite IH. reflexivity.
Qed.

(** What the code takes as the value: the text between the first and the
    second [=]. *)
Lemma parsePair_pieces (pair : string) :
  parsePair pair
  = Tag.mk (trim (before_first "=" pair))
           (trim (match after_first "=" pair with
                  | Some rest => before_first "=" rest
                  | None => EmptyString
                  end)).
Proof.
  unfold parsePair. rewrite split_before_after.
  destruct (after_first "=" pair) as [rest|]; [|reflexivity].
  rewrite split_before_after, or_else_empty. reflexivity.
Qed.

Lemma before_first_absent (sep : ascii) (s : string) :
  count_char sep s = 0%nat -> before_first sep s = s.
Proof.
  induction s as [|ch t IH]; simpl; [reflexivity|].
  destruct (Ascii.eqb ch sep); [discriminate|]. intros H. now rewrite IH.
Qed.

Lemma after_first_count (sep : ascii) (s rest : string) :
  after_first sep s = Some rest -> count_char sep s = S (count_char sep rest).
Proof.
  induction s as [|ch t IH]; simpl; [discriminate|].
  destruct (Ascii.eqb ch sep); [now intros [= ->] | exact IH].
Qed.

(** On a pair with at most one [=] the code and the specification agree. *)
Lemma parsePair_agrees (pair : string) :
  (count_char "=" pair <= 1)%nat -> parsePair pair = parsePair_spec pair.
Proof.
  intros H. rewrite parsePair_pieces. unfold parsePair_spec.
  destruct (after_first "=" pair) as [rest|] eqn:E; [|reflexivity].
  apply after_first_count in E. rewrite (before_first_absent "=" rest); [reflexivity | lia].
Qed.

(** The example of the specification. *)
Example parseTags_example :
  parseTags "A=1, B=2,,C="
  = [Tag.mk "A" "1"; Tag.mk "B" "2"; Tag.mk "C" EmptyString].
Proof. reflexivity. Qed.

Example serializeTags_example :
  serializeTags (parseTags "A=1, B=2,,C=") = "A=1&B=2&C=".
Proof. reflexivity. Qed.

(** C1, where the code departs from it: on the tag string [A=1=2] the value
    the code keeps is [1], the text up to the second [=]; the remainder
    after the first [=] is [1=2]. *)
Theorem tag_value_truncated :
  parseTags "A=1=2" = [Tag.mk "A" "1"]
  /\ parseTags_spec "A=1=2" = [Tag.mk "A" "1=2"]
  /\ tagging (Sample.set_tags "A=1=2" Sample.input) = Some [Tag.mk "A" "1"].
Proof. repeat split. Qed.

End Properties.

(** ** What a run does: calls, files, outputs and reports *)

Module Behaviour.
Import Js Action Run Spec JsFacts Properties.

(** *** Inversion of [upload] and of the QR step *)

Lemma withChecksum_result (input : Input.t) (params : object) (w : World) :
  withChecksum input params w = (fst (withChecksum input params w), w).
Proof.
  destruct (withChecksum_world input params w) as [Hw _].
  destruct (withChecksum input params w) as [r w']. simpl in *. now subst.
Qed.

(** The checksum handling throws for an unsupported algorithm only. *)
Lemma withChecksum_thrown (input : Input.t) (params : object) (w : World) (e : exn) :
  fst (withChecksum input params w) = Throw e ->
  algorithm_unsupported input
  /\ e = Error Thrown (checksum_message (Input.checksumAlgorithm input)).
Proof.
  unfold withChecksum, bind, throw_if, throw, ret.
  destruct (Input.checksumAlgorithm input =? "")%string eqn:Ea; cbn [negb];
    [discriminate|].
  destruct (includes supportedAlgorithms (Input.checksumAlgorithm input)) eqn:Ei;
    cbn [negb].
  - destruct (negb (Input.checksum input =? "")%string);
      [destruct (checksumField (Input.checksumAlgorithm input))|]; discriminate.
  - simpl. intros [= <-]. split; [|reflexivity]. split.
    + now apply String.eqb_neq.
    + intros Hin. apply includes_In in Hin. congruence.
Qed.

(** Every way [upload] ends.  It never changes a file nor the failure
    message.  Either it throws before any call, or the file is read and
    uploaded with the parameters of [withChecksum]; then the upload is
    rejected, or no URL is asked for, or the file is public and its URL is
    computed, or it is private and a signed URL is requested. *)
Lemma upload_inv (env : Env) (input : Input.t) (w w1 : World)
    (r : Result (string * option string)) :
  upload env input w = (r, w1) ->
  files w1 = files w /\ failed w1 = failed w
  /\ ((calls w1 = calls w /\ outputs w1 = outputs w
       /\ exists e, r = Throw e
            /\ ((~ expire_valid input /\ e = Error Thrown expire_message)
                \/ (expire_valid input /\ ~ qrWidth_valid input
                    /\ e = Error Thrown qrWidth_message)
                \/ (expire_valid input /\ qrWidth_valid input
                    /\ files w !! Input.filePath input = None
                    /\ origin e = FileSystem)
                \/ (expire_valid input /\ qrWidth_valid input
                    /\ is_Some (files w !! Input.filePath input)
                    /\ algorithm_unsupported input
                    /\ e = Error Thrown
                             (checksum_message (Input.checksumAlgorithm input)))))
      \/ exists (d body : string) (params : object) (w0 : World),
           getDestinationDir env input w = (Ok d, w0)
           /\ expire_valid input /\ qrWidth_valid input
           /\ files w !! Input.filePath input = Some body
           /\ fst (withChecksum input (baseParams input (fileKey input d) body) w)
              = Ok params
           /\ ((exists msg, s3_putObject env (calls w) params = Some msg
                  /\ r = Throw (Error Storage msg)
                  /\ calls w1 = (calls w ++ [PutObject params])%list
                  /\ outputs w1 = outputs w)
               \/ (s3_putObject env (calls w) params = None
                   /\ (Input.outputFileUrl input =? "true")%string = false
                   /\ (Input.outputQrUrl input =? "true")%string = false
                   /\ r = Ok (d, None)
                   /\ calls w1 = (calls w ++ [PutObject params])%list
                   /\ outputs w1 = outputs w)
               \/ (s3_putObject env (calls w) params = None
                   /\ (Input.outputFileUrl input =? "true")%string
                      || (Input.outputQrUrl input =? "true")%string = true
                   /\ (Input.public input =? "true")%string = true
                   /\ r = Ok (d, Some (rewriteUrl input (publicUrl input (fileKey input d))
                                         (Input.alternativeDomainPublic input)))
                   /\ calls w1 = (calls w ++ [PutObject params])%list
                   /\ outputs w1
                      = (outputs w
                         ++ if (Input.outputFileUrl input =? "true")%string
                            then [("file-url",
                                   rewriteUrl input (publicUrl input (fileKey input d))
                                     (Input.alternativeDomainPublic input))]
                            else [])%list)
               \/ (s3_putObject env (calls w) params = None
                   /\ (Input.outputFileUrl input =? "true")%string
                      || (Input.outputQrUrl input =? "true")%string = true
                   /\ (Input.public input =? "true")%string = false
                   /\ calls w1
                      = (calls w
                         ++ [PutObject params;
                             GetSignedUrl
                               (<["Key" := fileKey input d]>
                                  (<["Bucket" := Input.awsBucket input]> ∅))
                               (expire input)])%list
                   /\ match s3_getSignedUrl env (calls w ++ [PutObject params])%list
                              (<["Key" := fileKey input d]>
                                 (<["Bucket" := Input.awsBucket input]> ∅))
                              (expire input) with
                      | inl signed =>
                          r = Ok (d, Some (rewriteUrl input signed
                                             (Input.alternativeDomainPrivate input)))
                          /\ outputs w1
                             = (outputs w
                                ++ if (Input.outputFileUrl input =? "true")%string
                                   then [("file-url",
                                          rewriteUrl input signed
                                            (Input.alternativeDomainPrivate input))]
                                   else [])%list
                      | inr msg => r = Throw (Error Storage msg) /\ outputs w1 = outputs w
                      end))).
Proof.
  unfold upload. intros H.
  destruct (expire_rejected (expire input)) eqn:E1.
  { injection H as <- <-. split; [reflexivity|]. split; [reflexivity|]. left.
    split; [reflexivity|]. split; [reflexivity|]. eexists. split; [reflexivity|].
    left. split; [|reflexivity]. intros V. apply expire_rejected_iff in V. congruence. }
  destruct (qrWidth_rejected (qrWidth input)) eqn:E2.
  { injection H as <- <-. split; [reflexivity|]. split; [reflexivity|]. left.
    split; [reflexivity|]. split; [reflexivity|]. eexists. split; [reflexivity|].
    right. left. apply expire_rejected_iff in E1. split; [exact E1|].
    split; [|reflexivity]. intros V. apply qrWidth_rejected_iff in V. congruence. }
  apply expire_rejected_iff in E1. apply qrWidth_rejected_iff in E2.
  destruct (getDestinationDir_frame env input w) as (d & w0 & Hd & Hf & Hc & Ho & Hfl).
  unfold bind, throw_if in H. cbv beta iota in H. unfold ret at 1 2 in H.
  cbv beta iota in H. rewrite Hd in H. cbv beta iota in H.
  unfold readFileSync in H. rewrite Hf in H.
  destruct (files w !! Input.filePath input) as [body|] eqn:Ef.
  2:{ injection H as <- <-. split; [exact Hf|]. split; [exact Hfl|]. left.
      split; [exact Hc|]. split; [exact Ho|]. eexists. split; [reflexivity|].
      right. right. left. repeat split; auto. }
  rewrite withChecksum_result in H.
  destruct (withChecksum_world input (baseParams input (fileKey input d) body) w0)
    as [_ Hr].
  rewrite <- (Hr w) in H.
  destruct (fst (withChecksum input (baseParams input (fileKey input d) body) w))
    as [params|ex] eqn:Ew.
  2:{ injection H as <- <-. split; [exact Hf|]. split; [exact Hfl|]. left.
      split; [exact Hc|]. split; [exact Ho|]. exists ex. split; [reflexivity|].
      right. right. right.
      destruct (withChecksum_thrown _ _ _ _ Ew) as [Hun ->].
      split; [exact E1|]. split; [exact E2|]. split; [eauto|]. split; [exact Hun|].
      reflexivity. }
  unfold putObject in H. rewrite Hc in H.
  destruct (s3_putObject env (calls w) params) as [msg|] eqn:Ep.
  { injection H as <- <-. cbn [files failed calls outputs add_call].
    repeat split; auto. right. exists d, body, params, w0. repeat split; auto.
    left. exists msg. rewrite Hc. repeat split; auto. }
  destruct ((Input.outputFileUrl input =? "true")%string
            || (Input.outputQrUrl input =? "true")%string) eqn:Ewant.
  2:{ unfold ret in H. injection H as <- <-. cbn [files failed calls outputs add_call].
      apply orb_false_elim in Ewant as [Ea Eb].
      repeat split; auto. right. exists d, body, params, w0. repeat split; auto.
      right. left. rewrite Hc. repeat split; auto. }
  unfold getFileUrl in H.
  destruct (Input.public input =? "true")%string eqn:Epub.
  - unfold ret, setOutput in H.
    destruct (Input.outputFileUrl input =? "true")%string eqn:Eout;
      injection H as <- <-; cbn [files failed calls outputs add_call add_output];
      (repeat split; auto; right; exists d, body, params, w0; repeat split; auto;
       right; right; left; rewrite Hc, ?Ho, ?List.app_nil_r; repeat split; auto).
  - unfold bind, getSignedUrl in H. cbn [calls add_call] in H. rewrite Hc in H.
    destruct (s3_getSignedUrl env (calls w ++ [PutObject params])%list
                (<["Key" := fileKey input d]> (<["Bucket" := Input.awsBucket input]> ∅))
                (expire input)) as [signed|msg] eqn:Es.
    + unfold ret, setOutput in H.
      destruct (Input.outputFileUrl input =? "true")%string eqn:Eout;
        injection H as <- <-; cbn [files failed calls outputs add_call add_output];
        (repeat split; auto; right; exists d, body, params, w0; repeat split; auto;
         right; right; right; rewrite Es, Hc, ?Ho, ?List.app_nil_r, <- ?List.app_assoc;
         repeat split; auto).
    + injection H as <- <-. cbn [files failed calls outputs add_call add_output].
      repeat split; auto. right. exists d, body, params, w0. repeat split; auto.
      right. right. right. rewrite Es, Hc, <- ?List.app_assoc. repeat split; auto.
Qed.

(** Every way the QR step ends.  It changes no file but the temporary one.
    Either the encoder fails and nothing else happens, or the image is
    written and uploaded; when the upload is accepted the temporary file is
    removed and [qr-url] is set, when it is rejected the file stays. *)
Lemma qrStep_inv (env : Env) (input : Input.t) (width : option Z) (d : string)
    (u : option string) (w1 w' : World) (r : Result unit) :
  qrStep env input width d u w1 = (r, w') ->
  failed w' = failed w1
  /\ (forall path, path <> tmpQrFile -> files w' !! path = files w1 !! path)
  /\ match qr_toFile env u width with
     | inr msg => r = Throw (Error QrCode msg) /\ w' = w1
     | inl image =>
         calls w' = (calls w1 ++ [PutObject (qrParams input (qrKey input d) image)])%list
         /\ match s3_putObject env (calls w1) (qrParams input (qrKey input d) image) with
            | Some msg =>
                r = Throw (Error Storage msg)
                /\ files w' = <[tmpQrFile := image]> (files w1)
                /\ outputs w' = outputs w1
            | None =>
                r = Ok tt
                /\ files w' = delete tmpQrFile (files w1)
                /\ outputs w'
                   = (outputs w1
                      ++ [("qr-url",
                           rewriteUrl input (publicUrl input (qrKey input d))
                             (Input.alternativeDomainPublic input))])%list
            end
     end.
Proof.
  unfold qrStep, bind, toFile. intros H.
  destruct (qr_toFile env u width) as [image|msg].
  2:{ injection H as <- <-. repeat split. }
  unfold readFileSync in H. cbn [files set_files] in H. rewrite lookup_insert_eq in H.
  unfold putObject in H. cbn [calls set_files] in H.
  destruct (s3_putObject env (calls w1) (qrParams input (qrKey input d) image)) as [msg|].
  - injection H as <- <-. cbn [files failed calls outputs add_call set_files].
    repeat split. intros path Hp. now rewrite lookup_insert_ne.
  - unfold unlinkSync in H. cbn [files add_call set_files] in H.
    rewrite lookup_insert_eq in H. unfold setOutput in H. injection H as <- <-.
    cbn [files failed calls outputs add_call add_output set_files].
    rewrite delete_insert_eq. repeat split.
    intros path Hp. now rewrite lookup_delete_ne.
Qed.

(** [run] is [upload], then nothing more when it threw or when no QR code
    is asked for, and the QR step otherwise. *)
Lemma run_inv (env : Env) (input : Input.t) (w w' : World) (r : Result unit) :
  run env input w = (r, w') ->
  exists (ru : Result (string * option string)) (w1 : World),
    upload env input w = (ru, w1)
    /\ ((exists e, ru = Throw e /\ r = Throw e /\ w' = w1)
        \/ (exists d u, ru = Ok (d, u)
              /\ (Input.outputQrUrl input =? "true")%string = false
              /\ r = Ok tt /\ w' = w1)
        \/ (exists d u, ru = Ok (d, u)
              /\ (Input.outputQrUrl input =? "true")%string = true
              /\ qrStep env input (qrWidth input) d u w1 = (r, w'))).
Proof.
  unfold run, bind. intros H.
  destruct (upload env input w) as [[[d u]|e] w1] eqn:Eu.
  - exists (Ok (d, u)), w1. split; [reflexivity|]. right.
    destruct (Input.outputQrUrl input =? "true")%string eqn:Eq; cbn [negb fst snd] in H.
    + right. exists d, u. auto.
    + left. unfold ret in H. injection H as <- <-. exists d, u. auto.
  - injection H as <- <-. exists (Throw e), w1. split; [reflexivity|]. left. eauto.
Qed.

(** *** Files *)





(** *** The parameters of the upload *)

Lemma checksumField_in (algorithm field : string) :
  checksumField algorithm = Some field -> In field checksumFields.
Proof.
  unfold checksumField, checksumFields.
  repeat (destruct (_ =? _)%string; [intros [= <-]; simpl; tauto|]).
  discriminate.
Qed.

(** The checksum handling adds fields to [params] and changes no other. *)
Lemma withChecksum_other_fields (input : Input.t) (params params' : object)
    (w : World) (field : string) :
  fst (withChecksum input params w) = Ok params' ->
  ~ In field checksumFields -> params' !! field = params !! field.
Proof.
  unfold withChecksum, bind, throw_if, throw, ret. intros H Hf.
  assert (Ha : field <> "ChecksumAlgorithm").
  { intros ->. apply Hf. simpl. tauto. }
  destruct (negb (Input.checksumAlgorithm input =? "")%string);
    [|simpl in H; now injection H as <-].
  destruct (negb (includes supportedAlgorithms (Input.checksumAlgorithm input)));
    [discriminate|].
  destruct (negb (Input.checksum input =? "")%string).
  - destruct (checksumField (Input.checksumAlgorithm input)) as [f|] eqn:Ef;
      simpl in H; injection H as <-.
    + apply checksumField_in in Ef.
      rewrite !lookup_insert_ne; [reflexivity | auto | intros ->; auto].
    + now rewrite lookup_insert_ne.
  - simpl in H. injection H as <-. now rewrite lookup_insert_ne.
Qed.

Lemma withChecksum_ok_iff (input : Input.t) (params : object) (w : World) :
  (exists params', fst (withChecksum input params w) = Ok params')
  <-> ~ algorithm_unsupported input.
Proof.
  split.
  - intros [params' H] Hun.
    rewrite (withChecksum_unsupported _ _ _ Hun) in H. discriminate.
  - intros Hok. unfold withChecksum, bind, throw_if, throw, ret.
    destruct (Input.checksumAlgorithm input =? "")%string eqn:Ea; cbn [negb]; [eauto|].
    destruct (includes supportedAlgorithms (Input.checksumAlgorithm input)) eqn:Ei;
      cbn [negb].
    + destruct (negb (Input.checksum input =? "")%string);
        [destruct (checksumField (Input.checksumAlgorithm input))|]; simpl; eauto.
    + exfalso. apply Hok. split.
      * now apply String.eqb_neq.
      * intros Hin. apply includes_In in Hin. congruence.
Qed.



(** The calls of [run]: none, or the upload of the file, then the request
    of a signed URL when the file is private and a URL is asked for, then
    the upload of the QR image when the QR step gets that far. *)
Lemma run_calls (env : Env) (input : Input.t) (w w' : World) (r : Result unit) :
  run env input w = (r, w') ->
  calls w' = calls w
  \/ exists (d body : string) (params : object) (signing qr : list Call),
       expire_valid input /\ qrWidth_valid input
       /\ files w !! Input.filePath input = Some body
       /\ fst (withChecksum input (baseParams input (fileKey input d) body) w) = Ok params
       /\ calls w' = (calls w ++ PutObject params :: signing ++ qr)%list
       /\ (signing = []
           \/ (Input.public input =? "true")%string = false
              /\ signing = [GetSignedUrl
                              (<["Key" := fileKey input d]>
                                 (<["Bucket" := Input.awsBucket input]> ∅))
                              (expire input)])
       /\ (qr = []
           \/ (Input.outputQrUrl input =? "true")%string = true
              /\ exists image, qr = [PutObject (qrParams input (qrKey input d) image)]).
Proof.
  intros Hrun.
  destruct (run_inv _ _ _ _ _ Hrun) as (ru & w1 & Hu & Hcase).
  destruct (upload_inv _ _ _ _ _ Hu) as (_ & _ & Hup).
  destruct Hup as [(Hc & _ & e & -> & _)|(d & body & params & w0 & _ & He & Hq & Hbody & Hp & Hcase')].
  { left. destruct Hcase as [(e' & _ & _ & ->)|[(d & u & [=] & _)|(d & u & [=] & _)]].
    exact Hc. }
  right. exists d, body, params.
  assert (Hsig : exists signing,
            calls w1 = (calls w ++ PutObject params :: signing)%list
            /\ (signing = []
                \/ (Input.public input =? "true")%string = false
                   /\ signing = [GetSignedUrl
                                   (<["Key" := fileKey input d]>
                                      (<["Bucket" := Input.awsBucket input]> ∅))
                                   (expire input)])
            /\ forall d' u, ru = Ok (d', u) -> d' = d).
  { destruct Hcase' as [(msg & _ & -> & Hc & _)|[(_ & _ & _ & -> & Hc & _)
                       |[(_ & _ & _ & -> & Hc & _)|(_ & _ & Hpub & Hc & Hres)]]].
    - exists []. repeat split; auto. discriminate.
    - exists []. repeat split; auto. now intros d' u [= ->].
    - exists []. repeat split; auto. now intros d' u [= ->].
    - eexists [_]. split; [exact Hc|]. split; [right; split; [exact Hpub | reflexivity]|].
      destruct (s3_getSignedUrl env _ _ _); destruct Hres as [-> _];
        [now intros d' u [= ->] | discriminate]. }
  destruct Hsig as (signing & Hc1 & Hsigning & Hd).
  destruct Hcase as [(e & _ & _ & ->)|[(d' & u & _ & _ & _ & ->)|(d' & u & -> & Hqr & Hstep)]].
  - exists signing, []. rewrite List.app_nil_r. repeat split; auto.
  - exists signing, []. rewrite List.app_nil_r. repeat split; auto.
  - rewrite (Hd d' u eq_refl) in Hstep.
    destruct (qrStep_inv _ _ _ _ _ _ _ _ Hstep) as (_ & _ & Hm).
    destruct (qr_toFile env u (qrWidth input)) as [image|msg].
    + destruct Hm as [Hm _]. exists signing, [PutObject (qrParams input (qrKey input d) image)].
      repeat split; auto.
      * rewrite Hm, Hc1, <- List.app_assoc. reflexivity.
      * right. split; [exact Hqr | eauto].
    + destruct Hm as [_ ->]. exists signing, []. rewrite List.app_nil_r. repeat split; auto.
Qed.

(** X4: the QR image is uploaded beside the file: when a run uploads
    twice, the second upload is the QR image, in the same bucket and under
    the same root and directory as the file, with the name [qr.png]; this
    holds as well when the directory is the random one. *)
Theorem qr_beside_file (env : Env) (input : Input.t) (w w' : World) (r : Result unit)
    (first : Call) (rest : list Call) (q : object) :
  run env input w = (r, w') ->
  calls w' = (calls w ++ first :: rest)%list ->
  In (PutObject q) rest ->
  exists (p : object) (d : string),
    first = PutObject p
    /\ p !! "Key" = Some (bucketRoot input ++ d ++ basename (Input.filePath input))
    /\ q !! "Key" = Some (bucketRoot input ++ d ++ "qr.png")
    /\ q !! "Bucket" = p !! "Bucket"
    /\ Input.outputQrUrl input = "true".
Proof.
  intros Hrun Hcalls Hin.
  destruct (run_calls _ _ _ _ _ Hrun)
    as [Hsame|(d & body & params & signing & qr & _ & _ & _ & Hp & Hc & Hsig & Hqr)].
  { exfalso. rewrite Hsame in Hcalls. rewrite <- (List.app_nil_r (calls w)) in Hcalls at 1.
    apply List.app_inv_head in Hcalls. discriminate. }
  rewrite Hc in Hcalls. apply List.app_inv_head in Hcalls. injection Hcalls as <- <-.
  exists params, d. split; [reflexivity|].
  assert (Hfield : forall field, ~ In field checksumFields ->
            params !! field = baseParams input (fileKey input d) body !! field).
  { intros field Hn. exact (withChecksum_other_fields input _ _ w field Hp Hn). }
  assert (Hq : (Input.outputQrUrl input =? "true")%string = true
               /\ exists image, q = qrParams input (qrKey input d) image).
  { apply in_app_or in Hin as [Hin|Hin].
    - destruct Hsig as [->|[_ ->]]; [destruct Hin | destruct Hin as [[=]|[]]].
    - destruct Hqr as [->|[Ht [image ->]]]; [destruct Hin|].
      destruct Hin as [[= <-]|[]]. eauto. }
  destruct Hq as (Ht & image & ->). apply String.eqb_eq in Ht.
  unfold checksumFields in Hfield.
  repeat split; try exact Ht;
    rewrite ?Hfield by (simpl; intuition discriminate);
    unfold baseParams, qrParams, fileKey, qrKey;
    destruct (tagging input); by simplify_map_eq.
Qed.

Lemma qr_beside_file_witness :
  exists (p : object) (d : string),
    hd (GetSignedUrl ∅ None) (calls (snd (run Sample.env Sample.input Sample.world)))
    = PutObject p
    /\ p !! "Key" = Some ("artifacts/" ++ d ++ "y.txt")
    /\ qrParams Sample.input "artifacts/x/qr.png" "PNG" !! "Key"
       = Some ("artifacts/" ++ d ++ "qr.png")
    /\ qrParams Sample.input "artifacts/x/qr.png" "PNG" !! "Bucket" = p !! "Bucket"
    /\ Input.outputQrUrl Sample.input = "true".
Proof.
  apply (qr_beside_file Sample.env Sample.input Sample.world
           (snd (run Sample.env Sample.input Sample.world))
           (fst (run Sample.env Sample.input Sample.world))
           (hd (GetSignedUrl ∅ None)
               (calls (snd (run Sample.env Sample.input Sample.world))))
           (tl (calls (snd (run Sample.env Sample.input Sample.world))))
           (qrParams Sample.input "artifacts/x/qr.png" "PNG")).
  - apply surjective_pairing.
  - vm_compute. reflexivity.
  - vm_compute. left. reflexivity.
Defined.

Lemma run_extends_upload (env : Env) (input : Input.t) (w w' w1 : World)
    (r : Result unit) (ru : Result (string * option string)) :
  run env input w = (r, w') -> upload env input w = (ru, w1) ->
  exists more : list Call, calls w' = (calls w1 ++ more)%list.
Proof.
  intros Hrun Hu.
  destruct (run_inv _ _ _ _ _ Hrun) as (ru' & w1' & Hu' & Hcase).
  rewrite Hu in Hu'. injection Hu' as <- <-.
  destruct Hcase as [(e & _ & _ & ->)|[(d & u & _ & _ & _ & ->)|(d & u & _ & _ & Hq)]];
    try (exists []; now rewrite List.app_nil_r).
  destruct (qrStep_inv _ _ _ _ _ _ _ _ Hq) as (_ & _ & Hm).
  destruct (qr_toFile env u (qrWidth input)) as [image|msg].
  - destruct Hm as [Hm _]. eauto.
  - destruct Hm as [_ ->]. exists []. now rewrite List.app_nil_r.
Qed.

Lemma app_cons_not_self {A : Type} (l : list A) (x : A) (l' : list A) :
  l <> (l ++ x :: l')%list.
Proof.
  intros H. apply (f_equal (@List.length A)) in H.
  rewrite List.length_app in H. simpl in H. lia.
Qed.

(** *** Validation and its report *)

(** X5: a run calls the storage service exactly when [expire] and
    [qr-width] are valid, the file to upload can be read and the checksum
    algorithm is empty or supported. *)
Theorem storage_called_iff (env : Env) (input : Input.t) (w : World) :
  (exists (first : Call) (rest : list Call),
     calls (snd (run env input w)) = (calls w ++ first :: rest)%list)
  <-> expire_valid input /\ qrWidth_valid input
      /\ is_Some (files w !! Input.filePath input)
      /\ ~ algorithm_unsupported input.
Proof.
  destruct (run env input w) as [r w'] eqn:Hrun. cbn [snd]. split.
  - intros (first & rest & Hc).
    destruct (run_calls _ _ _ _ _ Hrun)
      as [Hsame|(d & body & params & signing & qr & He & Hq & Hb & Hp & _)].
    + rewrite Hsame in Hc. now apply app_cons_not_self in Hc.
    + repeat split; eauto.
      apply (withChecksum_ok_iff input (baseParams input (fileKey input d) body) w).
      eauto.
  - intros (He & Hq & Hb & Halg).
    destruct (upload env input w) as [ru w1] eqn:Hu.
    destruct (run_extends_upload _ _ _ _ _ _ _ Hrun Hu) as [more Hmore].
    destruct (upload_inv _ _ _ _ _ Hu) as (_ & _ & Hup).
    destruct Hup as [(_ & _ & e & _ & Hwhy)|(d & body & params & w0 & _ & _ & _ & _ & _ & Hcase)].
    { exfalso. destruct Hwhy as [[Hn _]|[(_ & Hn & _)|[(_ & _ & Hn & _)|(_ & _ & _ & Hn & _)]]];
        try contradiction.
      rewrite Hn in Hb. now destruct Hb. }
    assert (Hfirst : exists tail, calls w1 = (calls w ++ PutObject params :: tail)%list).
    { destruct Hcase as [(msg & _ & _ & Hc & _)|[(_ & _ & _ & _ & Hc & _)
                        |[(_ & _ & _ & _ & Hc & _)|(_ & _ & _ & Hc & _)]]];
        rewrite Hc; eauto. }
    destruct Hfirst as [tail Htail].
    exists (PutObject params), (tail ++ more)%list.
    rewrite Hmore, Htail, <- List.app_assoc. reflexivity.
Qed.






(** *** The signed URL *)

(** X8: a signed URL is requested only for a file that is not public, for
    the bucket and the key the file was uploaded to, and with the number of
    seconds [expire] parses to, which lies between 0 and 604800. *)
Theorem signed_url_request (env : Env) (input : Input.t) (w w' : World)
    (r : Result unit) (new : list Call) (command : object) (expiresIn : option Z) :
  run env input w = (r, w') ->
  calls w' = (calls w ++ new)%list ->
  In (GetSignedUrl command expiresIn) new ->
  Input.public input <> "true"
  /\ (exists n : Z,
        expiresIn = Some n /\ parseInt (Input.expire input) = Some n
        /\ (0 <= n <= 604800)%Z)
  /\ command !! "Bucket" = Some (Input.awsBucket input)
  /\ exists (p : object) (rest : list Call),
       new = PutObject p :: rest /\ command !! "Key" = p !! "Key".
Proof.
  intros Hrun Hcalls Hin.
  destruct (run_calls _ _ _ _ _ Hrun)
    as [Hsame|(d & body & params & signing & qr & He & _ & _ & Hp & Hc & Hsig & Hqr)].
  { rewrite Hsame in Hcalls. rewrite <- (List.app_nil_r (calls w)) in Hcalls at 1.
    apply List.app_inv_head in Hcalls. subst new. destruct Hin. }
  rewrite Hc in Hcalls. apply List.app_inv_head in Hcalls. subst new.
  destruct Hin as [[=]|Hin]. apply in_app_or in Hin as [Hin|Hin].
  2:{ destruct Hqr as [->|[_ [image ->]]]; [destruct Hin | destruct Hin as [[=]|[]]]. }
  destruct Hsig as [->|[Hpub ->]]; [destruct Hin|].
  destruct Hin as [[= <- <-]|[]].
  split; [now apply String.eqb_neq|]. split.
  { destruct He as (n & Hn & Hrange). exists n. unfold expire. rewrite Hn. auto. }
  split; [by simplify_map_eq|].
  eexists params, _. split; [reflexivity|].
  rewrite (withChecksum_other_fields input _ _ w "Key" Hp)
    by (unfold checksumFields; simpl; intuition discriminate).
  unfold baseParams. destruct (tagging input); by simplify_map_eq.
Qed.

Lemma signed_url_request_witness :
  Input.public (Sample.set_public "false" Sample.input) <> "true"
  /\ (exists n : Z,
        Some 180%Z = Some n
        /\ parseInt (Input.expire (Sample.set_public "false" Sample.input)) = Some n
        /\ (0 <= n <= 604800)%Z)
  /\ (<["Key" := "artifacts/x/y.txt"]> (<["Bucket" := "b"]> ∅) : object) !! "Bucket"
     = Some (Input.awsBucket (Sample.set_public "false" Sample.input))
  /\ exists (p : object) (rest : list Call),
       calls (snd (run Sample.env (Sample.set_public "false" Sample.input) Sample.world))
       = PutObject p :: rest
       /\ (<["Key" := "artifacts/x/y.txt"]> (<["Bucket" := "b"]> ∅) : object) !! "Key"
          = p !! "Key".
Proof.
  apply (signed_url_request Sample.env (Sample.set_public "false" Sample.input)
           Sample.world
           (snd (run Sample.env (Sample.set_public "false" Sample.input) Sample.world))
           (fst (run Sample.env (Sample.set_public "false" Sample.input) Sample.world))).
  - apply surjective_pairing.
  - reflexivity.
  - vm_compute. right. left. reflexivity.
Defined.

(** *** The QR code and the outputs *)



(** X10: [run] sets no output but [file-url] and [qr-url]: [file-url] only
    when [output-file-url] is ['true'], and [qr-url] only when
    [output-qr-url] is ['true'] and the run ends normally. *)
Theorem outputs_as_requested (env : Env) (input : Input.t) (w w' : World)
    (r : Result unit) :
  run env input w = (r, w') ->
  exists new : list (string * string),
    outputs w' = (outputs w ++ new)%list
    /\ forall name value : string,
         In (name, value) new ->
         (name = "file-url" /\ Input.outputFileUrl input = "true")
         \/ (name = "qr-url" /\ Input.outputQrUrl input = "true" /\ r = Ok tt).
Proof.
  intros Hrun.
  destruct (run_inv _ _ _ _ _ Hrun) as (ru & w1 & Hu & Hcase).
  destruct (upload_inv _ _ _ _ _ Hu) as (_ & _ & Hup).
  assert (H1 : exists new1 : list (string * string),
            outputs w1 = (outputs w ++ new1)%list
            /\ forall name value : string, In (name, value) new1 ->
                 name = "file-url" /\ Input.outputFileUrl input = "true").
  { assert (Hfile : forall url name value : string,
              In (name, value)
                 (if (Input.outputFileUrl input =? "true")%string
                  then [("file-url", url)] else []) ->
              name = "file-url" /\ Input.outputFileUrl input = "true").
    { intros url name value.
      destruct (Input.outputFileUrl input =? "true")%string eqn:E; [|intros []].
      intros [[= <- <-]|[]]. split; [reflexivity | now apply String.eqb_eq]. }
    destruct Hup as [(_ & Ho & _)|(d & body & params & w0 & _ & _ & _ & _ & _ & Hcase')].
    { exists []. rewrite List.app_nil_r. split; [exact Ho | intros ? ? []]. }
    destruct Hcase' as [(msg & _ & _ & _ & Ho)|[(_ & _ & _ & _ & _ & Ho)
                       |[(_ & _ & _ & _ & _ & Ho)|(_ & _ & _ & _ & Hres)]]].
    - exists []. rewrite List.app_nil_r. split; [exact Ho | intros ? ? []].
    - exists []. rewrite List.app_nil_r. split; [exact Ho | intros ? ? []].
    - eexists. split; [exact Ho | apply Hfile].
    - destruct (s3_getSignedUrl env _ _ _) as [signed|msg]; destruct Hres as [_ Ho].
      + eexists. split; [exact Ho | apply Hfile].
      + exists []. rewrite List.app_nil_r. split; [exact Ho | intros ? ? []]. }
  destruct H1 as (new1 & Ho1 & Hn1).
  destruct Hcase as [(e & _ & _ & ->)|[(d & u & _ & _ & _ & ->)|(d & u & _ & Hq & Hstep)]];
    try (exists new1; split; [exact Ho1 | intros name value Hin; left; eauto]).
  destruct (qrStep_inv _ _ _ _ _ _ _ _ Hstep) as (_ & _ & Hm).
  destruct (qr_toFile env u (qrWidth input)) as [image|msg].
  - destruct Hm as [_ Hm].
    destruct (s3_putObject env (calls w1) (qrParams input (qrKey input d) image)).
    + destruct Hm as (_ & _ & Ho). exists new1. rewrite Ho.
      split; [exact Ho1 | intros name value Hin; left; eauto].
    + destruct Hm as (-> & _ & Ho). eexists. rewrite Ho, Ho1, <- List.app_assoc.
      split; [reflexivity|]. intros name value Hin.
      apply in_app_or in Hin as [Hin|[[= <- <-]|[]]]; [left; eauto|].
      right. repeat split. now apply String.eqb_eq.
  - destruct Hm as [_ ->]. exists new1.
    split; [exact Ho1 | intros name value Hin; left; eauto].
Qed.

Lemma outputs_as_requested_witness :
  exists new : list (string * string),
    outputs (snd (run Sample.env Sample.input Sample.world))
    = (outputs Sample.world ++ new)%list
    /\ forall name value : string,
         In (name, value) new ->
         (name = "file-url" /\ Input.outputFileUrl Sample.input = "true")
         \/ (name = "qr-url" /\ Input.outputQrUrl Sample.input = "true"
             /\ fst (run Sample.env Sample.input Sample.world) = Ok tt).
Proof.
  apply (outputs_as_requested Sample.env Sample.input Sample.world
           (snd (run Sample.env Sample.input Sample.world))
           (fst (run Sample.env Sample.input Sample.world))).
  apply surjective_pairing.
Defined.

End Behaviour.

(** ** What the computations of a run give *)

Module Values.
Import Js Action Run Spec JsFacts Properties.

(** *** Tags *)

Lemma trimStart_head (s : string) :
  trimStart s = EmptyString
  \/ exists ch t, trimStart s = String ch t /\ isWhiteSpace ch = false.
Proof.
  induction s as [|ch t IH]; simpl; [now left|].
  destruct (isWhiteSpace ch) eqn:E; [exact IH | right; eauto].
Qed.

Lemma trimEnd_head (ch : ascii) (t : string) :
  isWhiteSpace ch = false -> exists t', trimEnd (String ch t) = String ch t'.
Proof.
  intros H. simpl. rewrite H. destruct (trimEnd t); eauto.
Qed.

Lemma trimEnd_idempotent (s : string) : trimEnd (trimEnd s) = trimEnd s.
Proof.
  induction s as [|ch t IH]; simpl; [reflexivity|].
  destruct (trimEnd t) as [|a t'] eqn:E.
  - destruct (isWhiteSpace ch) eqn:W; simpl; [reflexivity | now rewrite W].
  - cbn [trimEnd]. fold trimEnd. simpl in IH. simpl. rewrite IH. reflexivity.
Qed.

Lemma trim_idempotent (s : string) : trim (trim s) = trim s.
Proof.
  unfold trim. destruct (trimStart_head s) as [->|(ch & t & -> & W)]; [reflexivity|].
  destruct (trimEnd_head ch t W) as [t' Ht]. rewrite Ht.
  cbn [trimStart]. rewrite W. rewrite <- Ht. apply trimEnd_idempotent.
Qed.

(** X11: every key and every value of a parsed tag is trimmed: trimming it
    again changes nothing, whatever white space the tag string holds around
    the commas and the [=] signs. *)
Theorem parsed_tags_trimmed (tags : string) (t : Tag.t) :
  In t (parseTags tags) ->
  trim (Tag.Key t) = Tag.Key t /\ trim (Tag.Value t) = Tag.Value t.
Proof.
  unfold parseTags. rewrite in_map_iff. intros (pair & <- & _).
  rewrite parsePair_pieces. cbn [Tag.Key Tag.Value].
  split; apply trim_idempotent.
Qed.

Lemma parsed_tags_trimmed_witness :
  trim (Tag.Key (Tag.mk "B" "2")) = Tag.Key (Tag.mk "B" "2")
  /\ trim (Tag.Value (Tag.mk "B" "2")) = Tag.Value (Tag.mk "B" "2").
Proof.
  apply (parsed_tags_trimmed "A=1, B=2,,C=" (Tag.mk "B" "2")).
  simpl. right. left. reflexivity.
Defined.

Lemma trimStart_blank (s : string) :
  all_chars isWhiteSpace s = true -> trimStart s = EmptyString.
Proof.
  induction s as [|ch t IH]; simpl; [reflexivity|].
  intros H. apply andb_prop in H as [-> Ht]. auto.
Qed.

Lemma split_blank (s : string) :
  blank_tags s = true ->
  Forall (fun piece => all_chars isWhiteSpace piece = true) (split "," s).
Proof.
  unfold blank_tags. induction s as [|ch t IH]; simpl; intros H.
  - constructor; [reflexivity | constructor].
  - apply andb_prop in H as [Hc Ht]. specialize (IH Ht).
    destruct (Ascii.eqb ch ",") eqn:E.
    + constructor; [reflexivity | exact IH].
    + rewrite orb_false_r in Hc.
      destruct (split "," t) as [|h r].
      * constructor; [simpl; now rewrite Hc | constructor].
      * inversion IH; subst. constructor; [simpl; now rewrite Hc | assumption].
Qed.

Lemma parseTags_blank (tags : string) : blank_tags tags = true -> parseTags tags = [].
Proof.
  intros H. unfold parseTags. apply split_blank in H.
  induction H as [|piece l Hp _ IH]; [reflexivity|].
  simpl. unfold trim at 1. rewrite (trimStart_blank _ Hp). simpl. exact IH.
Qed.

(** X12: the tagging of the upload.  With an empty [tags] the upload has
    no [Tagging] field.  With a non-empty [tags] made of white space and
    commas only, no tag is parsed and the upload carries the empty string
    as [Tagging]. *)
Theorem blank_tags_give_empty_tagging (input : Input.t) (key body : string) :
  blank_tags (Input.tags input) = true ->
  baseParams input key body !! "Tagging"
  = if (Input.tags input =? "")%string then None else Some EmptyString.
Proof.
  intros H. unfold baseParams, tagging.
  destruct (Input.tags input) as [|ch t] eqn:E; cbn [truthy String.eqb].
  - by simplify_map_eq.
  - rewrite (parseTags_blank _ H). by simplify_map_eq.
Qed.

Lemma blank_tags_give_empty_tagging_witness :
  baseParams (Sample.set_tags " , ," Sample.input) "k" "b" !! "Tagging"
  = if (Input.tags (Sample.set_tags " , ," Sample.input) =? "")%string
    then None else Some EmptyString.
Proof.
  apply (blank_tags_give_empty_tagging (Sample.set_tags " , ," Sample.input) "k" "b").
  reflexivity.
Defined.

(** *** The conversion of a checksum *)

Lemma isHexDigit_value (ch : ascii) :
  isHexDigit ch = true -> exists v, digitValue ch = Some v /\ (0 <= v < 16)%Z.
Proof.
  unfold isHexDigit, digitValue.
  set (n := Z.of_nat (nat_of_ascii ch)).
  destruct ((48 <=? n) && (n <=? 57))%Z eqn:E1.
  { intros H. apply Z.ltb_lt in H. eexists. split; [reflexivity|]. lia. }
  destruct ((97 <=? n) && (n <=? 122))%Z eqn:E2.
  { intros H. apply Z.ltb_lt in H. eexists. split; [reflexivity|]. lia. }
  destruct ((65 <=? n) && (n <=? 90))%Z eqn:E3; [|discriminate].
  intros H. apply Z.ltb_lt in H. eexists. split; [reflexivity|]. lia.
Qed.

(** Two hexadecimal digits make one byte per pair; a last digit alone is
    dropped. *)
Lemma Buffer_from_hex_length (n : nat) (s : string) :
  (String.length s <= n)%nat -> all_chars isHexDigit s = true ->
  List.length (Buffer_from_hex s) = Nat.div2 (String.length s).
Proof.
  revert s. induction n as [n IH] using (well_founded_induction lt_wf).
  intros s Hn Hs. destruct s as [|a [|b t]]; [reflexivity | reflexivity |].
  cbn [all_chars] in Hs. apply andb_prop in Hs as [Ha Hs].
  apply andb_prop in Hs as [Hb Ht].
  destruct (isHexDigit_value a Ha) as (x & Hx & Rx).
  destruct (isHexDigit_value b Hb) as (y & Hy & Ry).
  cbn [Buffer_from_hex]. rewrite Hx, Hy.
  destruct (Z.ltb_spec x 16); [|lia]. destruct (Z.ltb_spec y 16); [|lia].
  cbn [andb List.length String.length Nat.div2]. f_equal.
  simpl in Hn. apply (IH (String.length t)); [lia | lia | exact Ht].
Qed.

Lemma base64_length (n : nat) (buf : list Z) :
  (List.length buf <= n)%nat ->
  String.length (Buffer_toString_base64 buf) = (4 * ((List.length buf + 2) / 3))%nat.
Proof.
  revert buf. induction n as [n IH] using (well_founded_induction lt_wf).
  intros buf Hn. destruct buf as [|a [|b [|c rest]]]; try reflexivity.
  cbn [Buffer_toString_base64 String.length List.length].
  rewrite (IH (List.length rest)); [|simpl in Hn; lia | lia].
  replace (S (S (S (List.length rest))) + 2)%nat
    with (List.length rest + 2 + 1 * 3)%nat by lia.
  rewrite Nat.div_add by discriminate. lia.
Qed.

(** X13: a checksum made of [n] hexadecimal digits is sent as a base64
    text of [4 * ceil (floor (n / 2) / 3)] characters (44 for the 64 digits
    of a SHA-256, 28 for SHA-1, 8 for CRC32): one byte per pair of digits,
    a last digit without a partner being dropped, and four characters per
    three bytes. *)
Theorem checksum_conversion_length (checksum : string) :
  test_hex checksum = true ->
  String.length (checksumValue checksum)
  = (4 * ((String.length checksum / 2 + 2) / 3))%nat.
Proof.
  intros H. unfold checksumValue. rewrite H.
  unfold test_hex in H. apply andb_prop in H as [_ H].
  rewrite (base64_length _ _ (Nat.le_refl _)).
  rewrite (Buffer_from_hex_length _ _ (Nat.le_refl _) H).
  now rewrite Nat.div2_div.
Qed.

Lemma checksum_conversion_length_witness :
  String.length
    (checksumValue "e3b0c44298fc1c149afbf4c8996fb92427ae41e4649b934ca495991b7852b855")
  = 44%nat.
Proof.
  apply (checksum_conversion_length
           "e3b0c44298fc1c149afbf4c8996fb92427ae41e4649b934ca495991b7852b855").
  reflexivity.
Defined.

(** *** The base name *)

Lemma list_ascii_of_string_app (a b : string) :
  list_ascii_of_string (a ++ b) = (list_ascii_of_string a ++ list_ascii_of_string b)%list.
Proof. induction a as [|ch a IH]; simpl; [reflexivity | now rewrite IH]. Qed.

Lemma string_of_list_ascii_app (a b : list ascii) :
  string_of_list_ascii (a ++ b) = string_of_list_ascii a ++ string_of_list_ascii b.
Proof. induction a as [|ch a IH]; simpl; [reflexivity | now rewrite IH]. Qed.

Lemma count_char_forall (ch : ascii) (s : string) :
  count_char ch s = 0%nat -> Forall (fun a => Ascii.eqb a ch = false) (list_ascii_of_string s).
Proof.
  induction s as [|a t IH]; simpl; intros H; [constructor|].
  destruct (Ascii.eqb a ch) eqn:E; [discriminate|]. constructor; auto.
Qed.

Lemma basename_scan_no_slash (l : list ascii) (m : bool) (kept : string) :
  count_char "/" kept = 0%nat -> count_char "/" (basename_scan l m kept) = 0%nat.
Proof.
  revert m kept. induction l as [|ch l IH]; intros m kept H; simpl; [exact H|].
  destruct (Ascii.eqb ch "/") eqn:E.
  - destruct m; [now apply IH | exact H].
  - apply IH. simpl. now rewrite E.
Qed.

(** The scan over characters that are not slashes keeps them all. *)
Lemma basename_scan_name (l rest : list ascii) (m : bool) (kept : string) :
  Forall (fun a => Ascii.eqb a "/" = false) l ->
  basename_scan (l ++ rest) m kept
  = basename_scan rest (match l with [] => m | _ :: _ => false end)
      (string_of_list_ascii (rev l) ++ kept).
Proof.
  intros H. revert m kept. induction H as [|ch l Hc _ IH]; intros m kept; [reflexivity|].
  cbn [List.app basename_scan]. rewrite Hc, IH.
  cbn [rev]. rewrite string_of_list_ascii_app. cbn [string_of_list_ascii].
  rewrite app_assoc. simpl. now destruct l.
Qed.

(** X14: the base name taken from [file-path] holds no slash, and for a
    path that ends with a slash and a name (a non-empty text without slash)
    it is that name, also when more slashes follow the name; so the key of
    the upload ends with the name of the file and adds no directory level. *)
Theorem basename_of_path (dir name slashes : string) :
  name <> EmptyString -> count_char "/" name = 0%nat ->
  all_chars (fun ch => Ascii.eqb ch "/") slashes = true ->
  basename (name ++ slashes) = name
  /\ basename (dir ++ "/" ++ name ++ slashes) = name
  /\ forall path, count_char "/" (basename path) = 0%nat.
Proof.
  intros Hne Hname Hsl.
  assert (Hskip : forall before,
            basename_scan (rev (list_ascii_of_string slashes) ++ before) true EmptyString
            = basename_scan before true EmptyString).
  { clear Hne Hname. induction slashes as [|ch t IH]; intros before; [reflexivity|].
    simpl in Hsl. apply andb_prop in Hsl as [Hc Ht]. cbn [list_ascii_of_string rev].
    rewrite <- List.app_assoc. rewrite (IH Ht). simpl. now rewrite Hc. }
  assert (Hscan : forall before,
            basename_scan (rev (list_ascii_of_string name) ++ before) true EmptyString
            = basename_scan before false name).
  { intros before. rewrite basename_scan_name.
    - rewrite rev_involutive, string_of_list_ascii_of_string, app_nil_r.
      destruct name as [|ch t]; [congruence|]. simpl.
      now destruct (rev (list_ascii_of_string t) ++ [ch])%list eqn:E;
        [apply List.app_eq_nil in E as [_ [=]]|].
    - apply Forall_rev. now apply count_char_forall. }
  split; [|split].
  - unfold basename. rewrite list_ascii_of_string_app, rev_app_distr, Hskip.
    rewrite <- (List.app_nil_r (rev (list_ascii_of_string name))), Hscan. reflexivity.
  - unfold basename.
    rewrite !list_ascii_of_string_app, !rev_app_distr, <- !List.app_assoc, Hskip, Hscan.
    reflexivity.
  - intros path. unfold basename. now apply basename_scan_no_slash.
Qed.

Lemma basename_of_path_witness :
  basename ("y.txt" ++ "//") = "y.txt"
  /\ basename ("./build/out" ++ "/" ++ "y.txt" ++ "//") = "y.txt"
  /\ forall path, count_char "/" (basename path) = 0%nat.
Proof.
  apply (basename_of_path "./build/out" "y.txt" "//"); [discriminate | reflexivity..].
Defined.

(** *** The root and the directory *)

Lemma length_append (a b : string) :
  String.length (a ++ b) = (String.length a + String.length b)%nat.
Proof. induction a as [|ch a IH]; simpl; [reflexivity | now rewrite IH]. Qed.

Lemma endsWith_slash (s : string) : endsWith "/" (s ++ "/") = true.
Proof.
  unfold endsWith. rewrite length_append. cbn [String.length].
  replace (String.length s + 1 - 1)%nat with (String.length s) by lia.
  rewrite slice_from_app. destruct (Nat.leb_spec 1 (String.length s + 1)); [reflexivity | lia].
Qed.

Lemma normalize_slash_terminated (dir : string) :
  normalize dir = EmptyString \/ endsWith "/" (normalize dir) = true.
Proof.
  unfold normalize.
  destruct (if startsWith "/" dir then slice_from 1 dir else dir) as [|ch t];
    [now left|].
  cbn [truthy andb]. destruct (endsWith "/" (String ch t)) eqn:E; cbn [negb].
  - now right.
  - right. apply endsWith_slash.
Qed.

(** X15: the two segments of every key.  The root and the directory are
    each empty or ended by a slash; the root is empty exactly when
    [bucket-root] is ["/"], and the directory exactly when
    [destination-dir] is ["/"], in which case the object lies directly
    under the root (an empty [destination-dir] gives the random directory
    instead). *)
Theorem key_segments (input : Input.t) (randomStr : string) :
  (bucketRoot input = EmptyString \/ endsWith "/" (bucketRoot input) = true)
  /\ (destinationDir input randomStr = EmptyString
      \/ endsWith "/" (destinationDir input randomStr) = true)
  /\ (bucketRoot input = EmptyString <-> Input.bucketRoot input = "/")
  /\ (destinationDir input randomStr = EmptyString <-> Input.destinationDir input = "/").
Proof.
  split; [|split; [|split]].
  - unfold bucketRoot. destruct (truthy (Input.bucketRoot input)).
    + apply normalize_slash_terminated.
    + now right.
  - unfold destinationDir. destruct (truthy (Input.destinationDir input)).
    + apply normalize_slash_terminated.
    + right. apply endsWith_slash.
  - apply bucketRoot_empty_iff.
  - unfold destinationDir. split.
    + destruct (truthy (Input.destinationDir input)) eqn:E.
      * apply normalize_empty. now apply truthy_true.
      * destruct randomStr; discriminate.
    + intros ->. reflexivity.
Qed.

(** *** Numbers *)

Lemma parseDigits_uint (d : Decimal.uint) (a : nat) :
  parseDigits 10 (NilEmpty.string_of_uint d) (Some (Z.of_nat a))
  = Some (Z.of_nat (Nat.of_uint_acc d a)).
Proof.
  revert a. induction d as [|d IH|d IH|d IH|d IH|d IH|d IH|d IH|d IH|d IH|d IH];
    intros a; [reflexivity|..];
    cbn [NilEmpty.string_of_uint parseDigits Nat.of_uint_acc];
    match goal with
    | |- context [digitValue ?ch] =>
        let v := eval vm_compute in (digitValue ch) in change (digitValue ch) with v
    end;
    cbv iota; cbn [Z.ltb Z.compare Pos.compare Pos.compare_cont];
    rewrite <- IH, Nat.tail_mul_spec; do 2 f_equal; lia.
Qed.

Lemma parseInt_uint (d : Decimal.uint) :
  d <> Decimal.Nil ->
  parseInt (NilEmpty.string_of_uint d) = Some (Z.of_nat (Nat.of_uint d))
  /\ parseInt ("-" ++ NilEmpty.string_of_uint d) = Some (- Z.of_nat (Nat.of_uint d))%Z
  /\ parseInt ("+" ++ NilEmpty.string_of_uint d) = Some (Z.of_nat (Nat.of_uint d)).
Proof.
  intros Hd. unfold Nat.of_uint.
  assert (Hnone : parseDigits 10 (NilEmpty.string_of_uint d) None
                  = Some (Z.of_nat (Nat.of_uint_acc d 0))).
  { rewrite <- (parseDigits_uint d 0). destruct d; [congruence | reflexivity..]. }
  assert (H : forall sign : Z,
            option_map (Z.mul sign)
              (parseDigits 10 (NilEmpty.string_of_uint d) None)
            = Some (sign * Z.of_nat (Nat.of_uint_acc d 0))%Z
            /\ trimStart (NilEmpty.string_of_uint d) = NilEmpty.string_of_uint d
            /\ exists ch t, NilEmpty.string_of_uint d = String ch t
                 /\ Ascii.eqb ch "-" = false /\ Ascii.eqb ch "+" = false
                 /\ (Ascii.eqb ch "0"
                     && match t with
                        | String x _ => Ascii.eqb x "x" || Ascii.eqb x "X"
                        | EmptyString => false
                        end) = false).
  { intros sign. rewrite Hnone. clear Hnone.
    destruct d as [|d|d|d|d|d|d|d|d|d|d]; [congruence|..];
      (split; [reflexivity|]); (split; [reflexivity|]);
      eexists _, _; (split; [reflexivity|]); (split; [reflexivity|]);
      (split; [reflexivity|]); try reflexivity.
    destruct d; reflexivity. }
  split.
  - destruct (H 1%Z) as (Hv & Ht & ch & t & Hs & Hm & Hp & Hx).
    unfold parseInt. rewrite Ht, Hs, Hm, Hp.
    destruct t as [|x t'].
    + rewrite <- Hs, Hv. f_equal; lia.
    + rewrite Hx. rewrite <- Hs, Hv. f_equal; lia.
  - split.
    + destruct (H (-1)%Z) as (Hv & Ht & ch & t & Hs & Hm & Hp & Hx).
      unfold parseInt. cbn [String.append trimStart].
      change (isWhiteSpace "-") with false. cbv iota.
      change (Ascii.eqb "-" "-") with true. cbv iota. rewrite Hs.
      destruct t as [|x t'].
      * rewrite <- Hs, Hv. f_equal; lia.
      * rewrite Hx. rewrite <- Hs, Hv. f_equal; lia.
    + destruct (H 1%Z) as (Hv & Ht & ch & t & Hs & Hm & Hp & Hx).
      unfold parseInt. cbn [String.append trimStart].
      change (isWhiteSpace "+") with false. cbv iota.
      change (Ascii.eqb "+" "-") with false. change (Ascii.eqb "+" "+") with true.
      cbv iota. rewrite Hs.
      destruct t as [|x t'].
      * rewrite <- Hs, Hv. f_equal; lia.
      * rewrite Hx. rewrite <- Hs, Hv. f_equal; lia.
Qed.

Lemma to_uint_not_nil (n : nat) : Nat.to_uint n <> Decimal.Nil.
Proof.
  intros H. pose proof (DecimalNat.Unsigned.of_to n) as Hn. rewrite H in Hn.
  pose proof (DecimalNat.Unsigned.to_of Decimal.Nil) as Ht.
  rewrite Hn, H in Ht. discriminate.
Qed.

Lemma parseInt_of_decimal (n : nat) : parseInt (decimal n) = Some (Z.of_nat n).
Proof.
  unfold decimal. destruct (parseInt_uint (Nat.to_uint n) (to_uint_not_nil n)) as [H _].
  now rewrite H, DecimalNat.Unsigned.of_to.
Qed.


(** X17: for [expire] and [qr-width] written as decimal numbers, the
    validation accepts [expire] exactly up to 604800 and [qr-width] exactly
    from 100 to 1000. *)
Theorem decimal_inputs_accepted (input : Input.t) (seconds pixels : nat) :
  Input.expire input = decimal seconds ->
  Input.qrWidth input = decimal pixels ->
  (expire_valid input <-> (Z.of_nat seconds <= 604800)%Z)
  /\ (qrWidth_valid input <-> (100 <= Z.of_nat pixels <= 1000)%Z).
Proof.
  intros He Hq. unfold expire_valid, qrWidth_valid. rewrite He, Hq.
  rewrite (parseInt_of_decimal seconds), (parseInt_of_decimal pixels). split; split.
  - intros (n & [= <-] & Hn). lia.
  - intros H. eexists. split; [reflexivity | lia].
  - intros (n & [= <-] & Hn). lia.
  - intros H. eexists. split; [reflexivity | lia].
Qed.

Lemma decimal_inputs_accepted_witness :
  (expire_valid Sample.input <-> (Z.of_nat 180 <= 604800)%Z)
  /\ (qrWidth_valid Sample.input <-> (100 <= Z.of_nat 120 <= 1000)%Z).
Proof.
  apply (decimal_inputs_accepted Sample.input 180 120); reflexivity.
Defined.

(** *** The public URLs under an alternative domain *)

Lemma get_app_r (a b : string) (n : nat) :
  String.get (String.length a + n) (a ++ b) = String.get n b.
Proof. induction a as [|ch a IH]; simpl; [reflexivity | exact IH]. Qed.

Lemma indexOf_unfold (pat s : string) :
  indexOf pat s
  = if startsWith pat s then Some O
    else match s with
         | EmptyString => None
         | String _ t => option_map S (indexOf pat t)
         end.
Proof. destruct s; reflexivity. Qed.

(** A text that holds [.amazonaws.com/] does not occur again one to eight
    characters before itself. *)
Lemma no_early_occurrence (a r rest s : string) :
  (1 <= String.length s <= 8)%nat ->
  startsWith (a ++ ".amazonaws.com/" ++ r) (s ++ (a ++ ".amazonaws.com/" ++ r) ++ rest)
  = false.
Proof.
  intros Hs.
  destruct (startsWith _ _) eqn:E; [|reflexivity]. exfalso.
  apply startsWith_inv in E as [t Ht].
  apply (f_equal (String.get (String.length s + String.length a))) in Ht.
  rewrite get_app_r, !app_assoc in Ht.
  rewrite <- (Nat.add_0_r (String.length a)) in Ht at 1. rewrite get_app_r in Ht.
  rewrite (Nat.add_comm (String.length s)), get_app_r in Ht.
  destruct (String.length s) as [|[|[|[|[|[|[|[|[|k]]]]]]]]]; try lia; discriminate.
Qed.

Lemma indexOf_after (pat rest s : string) :
  (forall s', (1 <= String.length s' <= 8)%nat ->
              startsWith pat (s' ++ pat ++ rest) = false) ->
  (String.length s <= 8)%nat ->
  indexOf pat (s ++ pat ++ rest) = Some (String.length s).
Proof.
  intros Hno. induction s as [|ch s IH]; intros Hs; rewrite indexOf_unfold.
  - cbn [String.append]. now rewrite startsWith_app.
  - rewrite Hno by (simpl in *; lia).
    cbn [String.append]. rewrite IH by (simpl in Hs; lia). reflexivity.
Qed.

(** X18: with a non-empty alternative public domain without dollar sign,
    the URL of a public file is [https://], the domain, a slash, the
    directory and the name of the file, and the URL of its QR code the
    same with [qr.png]: bucket, region and root are gone, whatever they
    are. *)
Theorem public_urls_rewritten (input : Input.t) (d : string) :
  Input.alternativeDomainPublic input <> EmptyString ->
  no_dollar (Input.alternativeDomainPublic input) = true ->
  rewriteUrl input (publicUrl input (fileKey input d))
    (Input.alternativeDomainPublic input)
  = "https://" ++ Input.alternativeDomainPublic input ++ "/" ++ d
    ++ basename (Input.filePath input)
  /\ rewriteUrl input (publicUrl input (qrKey input d))
       (Input.alternativeDomainPublic input)
     = "https://" ++ Input.alternativeDomainPublic input ++ "/" ++ d ++ "qr.png".
Proof.
  intros Hne Hd.
  assert (H : forall rest,
            rewriteUrl input (publicUrl input (bucketRoot input ++ rest))
              (Input.alternativeDomainPublic input)
            = "https://" ++ Input.alternativeDomainPublic input ++ "/" ++ rest).
  { intros rest. unfold rewriteUrl, publicUrl, s3Prefix, replace.
    apply truthy_true in Hne. rewrite Hne.
    set (a := Input.awsBucket input ++ ".s3." ++ Input.awsRegion input).
    set (r := bucketRoot input).
    assert (Hp : (Input.awsBucket input ++ ".s3." ++ Input.awsRegion input
                  ++ ".amazonaws.com/") ++ r = a ++ ".amazonaws.com/" ++ r).
    { unfold a. now rewrite !app_assoc. }
    assert (Hu : "https://" ++ (Input.awsBucket input ++ ".s3." ++ Input.awsRegion input
                  ++ ".amazonaws.com/") ++ r ++ rest
                 = "https://" ++ (a ++ ".amazonaws.com/" ++ r) ++ rest).
    { rewrite <- Hp. now rewrite !app_assoc. }
    rewrite Hu, Hp.
    rewrite (indexOf_after (a ++ ".amazonaws.com/" ++ r) rest "https://"
               (no_early_occurrence a r rest)) by (simpl; lia).
    cbv zeta. rewrite slice_to_app.
    replace (String.length "https://" + String.length (a ++ ".amazonaws.com/" ++ r))%nat
      with (String.length ("https://" ++ a ++ ".amazonaws.com/" ++ r))
      by (now rewrite length_append).
    rewrite <- (app_assoc "https://" (a ++ ".amazonaws.com/" ++ r) rest), slice_from_app.
    rewrite GetSubstitution_no_dollar by (now rewrite no_dollar_app, Hd).
    now rewrite !app_assoc. }
  unfold fileKey, qrKey. split; apply H.
Qed.

Lemma public_urls_rewritten_witness :
  rewriteUrl (Sample.set_alternativeDomainPublic "cdn.example.com" Sample.input)
    (publicUrl (Sample.set_alternativeDomainPublic "cdn.example.com" Sample.input)
       (fileKey (Sample.set_alternativeDomainPublic "cdn.example.com" Sample.input) "x/"))
    "cdn.example.com"
  = "https://cdn.example.com/x/y.txt"
  /\ rewriteUrl (Sample.set_alternativeDomainPublic "cdn.example.com" Sample.input)
       (publicUrl (Sample.set_alternativeDomainPublic "cdn.example.com" Sample.input)
          (qrKey (Sample.set_alternativeDomainPublic "cdn.example.com" Sample.input) "x/"))
       "cdn.example.com"
     = "https://cdn.example.com/x/qr.png".
Proof.
  apply (public_urls_rewritten
           (Sample.set_alternativeDomainPublic "cdn.example.com" Sample.input) "x/").
  - discriminate.
  - reflexivity.
Defined.

(** *** What [parseInt] lets through *)








(** *** Well-formed tags *)

Lemma trimStart_length (s : string) : (String.length (trimStart s) <= String.length s)%nat.
Proof.
  induction s as [|ch t IH]; simpl; [lia|].
  destruct (isWhiteSpace ch); simpl; lia.
Qed.

Lemma trimEnd_length (s : string) : (String.length (trimEnd s) <= String.length s)%nat.
Proof.
  induction s as [|ch t IH]; simpl; [lia|].
  destruct (trimEnd t); [destruct (isWhiteSpace ch)|]; simpl in *; lia.
Qed.

(** A trimmed text starts with no white space and is left alone by
    [trimEnd]. *)
Lemma trimmed_inv (s : string) :
  trim s = s ->
  trimEnd s = s
  /\ match s with String ch _ => isWhiteSpace ch = false | EmptyString => True end.
Proof.
  intros H. unfold trim in H.
  assert (Hs : trimStart s = s).
  { destruct s as [|ch t]; [reflexivity|]. simpl in *.
    destruct (isWhiteSpace ch); [|reflexivity]. exfalso.
    pose proof (trimEnd_length (trimStart t)) as H1.
    pose proof (trimStart_length t) as H2.
    rewrite H in H1. simpl in H1. lia. }
  rewrite Hs in H. split; [exact H|].
  destruct s as [|ch t]; [exact I|]. simpl in Hs.
  destruct (isWhiteSpace ch); [|reflexivity]. exfalso.
  pose proof (trimStart_length t) as H2. rewrite Hs in H2. simpl in H2. lia.
Qed.

Lemma trimEnd_app (l v : string) :
  trimEnd v <> EmptyString -> trimEnd (l ++ v) = l ++ trimEnd v.
Proof.
  intros Hv. induction l as [|ch l IH]; [reflexivity|].
  cbn [String.append trimEnd]. rewrite IH.
  destruct (l ++ trimEnd v) eqn:E; [|reflexivity].
  destruct l; [simpl in E; congruence | discriminate].
Qed.

Lemma trimEnd_cons (ch : ascii) (s : string) :
  trimEnd (String ch s)
  = match trimEnd s with
    | EmptyString => if isWhiteSpace ch then EmptyString else String ch EmptyString
    | String a t => String ch (String a t)
    end.
Proof. reflexivity. Qed.

Lemma trimEnd_equals (v : string) : trimEnd v = v -> trimEnd (String "=" v) = String "=" v.
Proof. intros H. rewrite trimEnd_cons, H. now destruct v. Qed.

Lemma trim_tag_text (k v : string) :
  trim k = k -> trim v = v -> trim (k ++ "=" ++ v) = k ++ "=" ++ v.
Proof.
  intros Hk Hv. destruct (trimmed_inv k Hk) as [_ Hk0].
  destruct (trimmed_inv v Hv) as [Hve _]. unfold trim.
  assert (Hs : trimStart (k ++ "=" ++ v) = k ++ "=" ++ v).
  { destruct k as [|ch t]; [reflexivity|]. simpl. now rewrite Hk0. }
  rewrite Hs. change ("=" ++ v) with (String "=" v).
  rewrite trimEnd_app; rewrite (trimEnd_equals v Hve); [reflexivity | discriminate].
Qed.

Lemma count_char_app (ch : ascii) (a b : string) :
  count_char ch (a ++ b) = (count_char ch a + count_char ch b)%nat.
Proof. induction a as [|x a IH]; simpl; [reflexivity | rewrite IH; lia]. Qed.

Lemma before_first_app (sep : ascii) (a b : string) :
  count_char sep a = 0%nat -> before_first sep (a ++ String sep b) = a.
Proof.
  induction a as [|x a IH]; simpl; [now rewrite Ascii.eqb_refl|].
  destruct (Ascii.eqb x sep); [discriminate|]. intros H. now rewrite IH.
Qed.

Lemma after_first_app (sep : ascii) (a b : string) :
  count_char sep a = 0%nat -> after_first sep (a ++ String sep b) = Some b.
Proof.
  induction a as [|x a IH]; simpl; [now rewrite Ascii.eqb_refl|].
  destruct (Ascii.eqb x sep); [discriminate | exact IH].
Qed.

Lemma after_first_absent (sep : ascii) (s : string) :
  count_char sep s = 0%nat -> after_first sep s = None.
Proof.
  induction s as [|x s IH]; simpl; [reflexivity|].
  destruct (Ascii.eqb x sep); [discriminate | exact IH].
Qed.

Lemma parsePair_tag_text (t : Tag.t) :
  plain (Tag.Key t) -> plain (Tag.Value t) -> parsePair (tag_text t) = t.
Proof.
  intros (Hk & _ & Hke) (Hv & _ & Hve). rewrite parsePair_pieces. unfold tag_text.
  change ("=" ++ Tag.Value t) with (String "=" (Tag.Value t)).
  rewrite (before_first_app _ _ _ Hke), (after_first_app _ _ _ Hke).
  rewrite (before_first_absent _ _ Hve), Hk, Hv. now destruct t.
Qed.

(** X20: a list of tags whose keys and values are trimmed and hold no
    comma and no equals sign, written [Key=Value] with commas between the
    tags, is parsed back to the same list, in the same order. *)
Theorem parseTags_of_tags_text (l : list Tag.t) :
  (forall t, In t l -> plain (Tag.Key t) /\ plain (Tag.Value t)) ->
  parseTags (tags_text l) = l.
Proof.
  unfold tags_text, parseTags.
  induction l as [|t l IH]; intros H; [reflexivity|].
  destruct (H t (or_introl eq_refl)) as [Hk Hv].
  assert (Hc : count_char "," (tag_text t) = 0%nat).
  { unfold tag_text. destruct Hk as (_ & Hk & _), Hv as (_ & Hv & _).
    rewrite !count_char_app, Hk, Hv. reflexivity. }
  assert (Ht : trim (tag_text t) = tag_text t).
  { destruct Hk as (Hk & _), Hv as (Hv & _). now apply trim_tag_text. }
  assert (Hne : truthy (tag_text t) = true).
  { unfold tag_text. now destruct (Tag.Key t). }
  destruct l as [|t' l'].
  - cbn [map join]. rewrite split_before_after.
    rewrite (before_first_absent _ _ Hc), (after_first_absent _ _ Hc).
    cbn [map]. rewrite Ht, filter_cons_True by (rewrite Hne; exact I).
    cbn [map]. now rewrite (parsePair_tag_text t Hk Hv).
  - change (join "," (map tag_text (t :: t' :: l')))
      with (tag_text t ++ String "," (join "," (map tag_text (t' :: l')))).
    rewrite split_before_after.
    rewrite (before_first_app _ _ _ Hc), (after_first_app _ _ _ Hc).
    cbn [map]. rewrite Ht, filter_cons_True by (rewrite Hne; exact I).
    cbn [map]. rewrite (parsePair_tag_text t Hk Hv). f_equal.
    apply IH. intros x Hx. apply H. now right.
Qed.

Lemma parseTags_of_tags_text_witness :
  parseTags (tags_text [Tag.mk "env" "prod"; Tag.mk "team" "a b"; Tag.mk "empty" ""])
  = [Tag.mk "env" "prod"; Tag.mk "team" "a b"; Tag.mk "empty" ""].
Proof.
  apply (parseTags_of_tags_text
           [Tag.mk "env" "prod"; Tag.mk "team" "a b"; Tag.mk "empty" ""]).
  intros t [<-|[<-|[<-|[]]]]; repeat split.
Defined.

End Values.
